(** * p-robust_dcopf: the RTS data worker ([ps_data_worker.py])

    A shallow embedding of the extract-transform-load code that turns an
    RTS-GMLC data set into the normalised network model [PSData] and into
    piecewise-linear generator cost curves [PWLCost].

    Numbers.  The tables hold Python [int]s and [float]s.  They are embedded
    as exact rationals ([Q]); the rounding of IEEE binary64 arithmetic is not
    part of the model, and numeric equalities are stated with [Qeq].  (The
    module [Binary64] at the end recomputes the two numeric scenarios of the
    specification on binary64 values.)  Python's true division [/] raises
    [ZeroDivisionError] on a zero divisor: it is embedded as the partial
    operation [pydiv].

    Failures.  A Python exception is a value of type [error]; code that can
    raise returns a [result]. *)

From Corelib Require PrimFloat.
From Stdlib Require Import QArith Qminmax Lqa Lia Sorted.
From stdpp Require Import gmap strings list fin_maps sorting.

Set Default Proof Using "Type".
Open Scope Q_scope.

(** ** Exceptions and the error monad *)

Inductive error : Type :=
| KeyError
| IndexError
| ZeroDivisionError
| ValueError.

Inductive result (A : Type) : Type :=
| Ok (a : A)
| Raise (e : error).
Arguments Ok {A} a.
Arguments Raise {A} e.

Definition bind {A B : Type} (m : result A) (k : A → result B) : result B :=
  match m with
  | Ok a => k a
  | Raise e => Raise e
  end.

Notation "x ←! m ; k" := (bind m (fun x => k))
  (at level 100, m at next level, right associativity,
   format "x  ←!  m ;  '/' k").

(** [for x in l: s = body(s, x)], stopping at the first exception. *)
Fixpoint for_each {S A : Type} (body : S → A → result S) (l : list A) (s : S)
  : result S :=
  match l with
  | [] => Ok s
  | x :: l' => s' ←! body s x; for_each body l' s'
  end.

(** [enumerate(l)], counting from [n]. *)
Fixpoint enumerate_from {A : Type} (n : nat) (l : list A) : list (nat * A) :=
  match l with
  | [] => []
  | x :: l' => (n, x) :: enumerate_from (S n) l'
  end.

Definition enumerate {A : Type} (l : list A) : list (nat * A) :=
  enumerate_from 0 l.

(** ** Python arithmetic *)

(** [x / y] of Python 3. *)
Definition pydiv (x y : Q) : result Q :=
  if Qeq_bool y 0 then Raise ZeroDivisionError else Ok (x / y).

(** [d[k]] for a [dict]. *)
Definition getitem `{Countable K} {V : Type} (d : gmap K V) (k : K) : result V :=
  match d !! k with
  | Some v => Ok v
  | None => Raise KeyError
  end.

(** [l[i]] for a [list] and a non-negative [i]. *)
Definition list_getitem {A : Type} (l : list A) (i : nat) : result A :=
  match l !! i with
  | Some v => Ok v
  | None => Raise IndexError
  end.

(** ** numpy arrays, as far as the cost builder uses them *)

(** [np.linspace(start, stop, num)] with the default [endpoint=True]:
    [num - 1] steps of equal width, the last sample set to [stop] itself. *)
Definition linspace (start stop : Q) (num : nat) : list Q :=
  match num with
  | O => []
  | S O => [start]
  | S div =>
      let step := (stop - start) / inject_Z (Z.of_nat div) in
      map (fun i : nat => inject_Z (Z.of_nat i) * step + start) (seq 0 div)
        ++ [stop]
  end.

(** [a.min()] and [a.max()]; numpy raises [ValueError] on an empty array. *)
Definition arr_min (a : list Q) : result Q :=
  match a with
  | [] => Raise ValueError
  | x :: a' => Ok (fold_left Qmin a' x)
  end.

Definition arr_max (a : list Q) : result Q :=
  match a with
  | [] => Raise ValueError
  | x :: a' => Ok (fold_left Qmax a' x)
  end.

(** The slices [a[:1]] and [a[-1:]]. *)
Definition slice_first {A : Type} (a : list A) : list A := take 1 a.
Definition slice_last {A : Type} (a : list A) : list A := drop (length a - 1) a.

(** ** The raw tables of [RTSDataSet]

    One record per row of [bus.csv], [gen.csv] and [branch.csv], with the
    column names as [_read_*_from_csv] normalises them; only the columns that
    the two builders read are kept. *)

Module RtsBus.
Record t : Type := mk {
  bus_id : Z;
  bus_type : string;
  area : Z;
  lat : Q;
  lng : Q;
  mw_load : Q;
}.
End RtsBus.

Module RtsGen.
Record t : Type := mk {
  gen_uid : string;
  unit_type : string;
  fuel : string;
  bus_id : Z;
  min_down_time_hr : Q;
  min_up_time_hr : Q;
  pmax_mw : Q;
  pmin_mw : Q;
  ramp_rate_mw_per_min : Q;
  output_pct_0 : Q;
  output_pct_1 : Q;
  output_pct_2 : Q;
  output_pct_3 : Q;
  hr_avg_0 : Q;
  hr_incr_1 : Q;
  hr_incr_2 : Q;
  hr_incr_3 : Q;
  fuel_price_dollar_per_mmbtu : Q;
}.
End RtsGen.

Module RtsBranch.
Record t : Type := mk {
  uid : string;
  from_bus : Z;
  to_bus : Z;
  r : Q;
  x : Q;
  b : Q;
  cont_rating : Q;
  ste_rating : Q;
}.
End RtsBranch.

(** The attributes of [RTSDataSet] that the builders read. *)
Module RTSDataSet.
Record t : Type := mk {
  bus : list RtsBus.t;
  gen : list RtsGen.t;
  branch : list RtsBranch.t;
  basemva : Q;
}.
End RTSDataSet.

(** ** [PWLCost] and [create_pwlcost_from_rts_data] *)

Record PWLCost : Type := mkPWLCost {
  slopes : list Q;
  intercepts : list Q;
  nums : nat;
}.

Definition segments : nat := 1.

(** The breakpoints [(xs, ys)] of one generator, in megawatts and dollars. *)
Definition pwl_breakpoints (g : RtsGen.t) : result (list Q * list Q) :=
  let x1 := linspace (RtsGen.output_pct_0 g) (RtsGen.output_pct_1 g) (segments + 1) in
  let x2 := linspace (RtsGen.output_pct_1 g) (RtsGen.output_pct_2 g) (segments + 1) in
  let x3 := linspace (RtsGen.output_pct_2 g) (RtsGen.output_pct_3 g) (segments + 1) in
  x1min ←! arr_min x1;
  let y1 := map (fun x => (x - x1min) * RtsGen.hr_incr_1 g
                          + RtsGen.hr_avg_0 g * x1min) x1 in
  x2min ←! arr_min x2;
  y1max ←! arr_max y1;
  let y2 := map (fun x => (x - x2min) * RtsGen.hr_incr_2 g + y1max) x2 in
  x3min ←! arr_min x3;
  y2max ←! arr_max y2;
  let y3 := map (fun x => (x - x3min) * RtsGen.hr_incr_3 g + y2max) x3 in
  let xs := slice_first x1 ++ slice_last x1 ++ slice_last x2 ++ slice_last x3 in
  let ys := slice_first y1 ++ slice_last y1 ++ slice_last y2 ++ slice_last y3 in
  let xs := map (fun x => x * RtsGen.pmax_mw g) xs in
  let ys := map (fun y => y * RtsGen.pmax_mw g
                          * RtsGen.fuel_price_dollar_per_mmbtu g / 1000) ys in
  Ok (xs, ys).

(** The body of [for s in [1,2,3]]: slope and intercept of segment [s].
    The operands are numpy floats, whose division by zero gives [inf] or
    [nan] with a warning; the embedding is stricter and lets the division
    raise, so that a run without failure shows that the guard [dx==0] keeps
    every division away from a zero divisor. *)
Definition pwl_segment (xs ys : list Q) (s : nat) : result (Q * Q) :=
  xhi ←! list_getitem xs s;
  xlo ←! list_getitem xs (s - 1);
  let dx := xhi - xlo in
  if Qeq_bool dx 0 then Ok (0, 0)
  else
    yhi ←! list_getitem ys s;
    ylo ←! list_getitem ys (s - 1);
    slope ←! pydiv (yhi - ylo) dx;
    ylo' ←! list_getitem ys (s - 1);
    xlo' ←! list_getitem xs (s - 1);
    Ok (slope, ylo' - slope * xlo').

Definition pwl_of_gen (g : RtsGen.t) : result PWLCost :=
  bp ←! pwl_breakpoints g;
  let '(xs, ys) := bp in
  acc ←! for_each
          (fun (acc : list Q * list Q) (s : nat) =>
             si ←! pwl_segment xs ys s;
             Ok (acc.1 ++ [si.1], acc.2 ++ [si.2]))
          [1; 2; 3]%nat ([], []);
  Ok (mkPWLCost acc.1 acc.2 3).

Definition create_pwlcost_from_rts_data (rtsdata : RTSDataSet.t)
  : result (list PWLCost) :=
  for_each (fun gencost g => c ←! pwl_of_gen g; Ok (gencost ++ [c]))
           (RTSDataSet.gen rtsdata) [].

(** ** The normalised network [PSData] *)

(** The dictionaries [newbus], [newgen] and [newbranch], one field per key. *)
Module Bus.
Record t : Type := mk {
  id : Z;
  type : string;
  area : Z;
  lat : Q;
  lon : Q;
  area_load_share : Q;
  is_slack : bool;
  gens : list nat;
  branches_out : list nat;
  branches_in : list nat;
}.

(** [bus['gens'].append(i)] and its two siblings. *)
Definition append_gen (i : nat) (b : t) : t :=
  mk (id b) (type b) (area b) (lat b) (lon b) (area_load_share b)
     (is_slack b) (gens b ++ [i]) (branches_out b) (branches_in b).
Definition append_branch_out (i : nat) (b : t) : t :=
  mk (id b) (type b) (area b) (lat b) (lon b) (area_load_share b)
     (is_slack b) (gens b) (branches_out b ++ [i]) (branches_in b).
Definition append_branch_in (i : nat) (b : t) : t :=
  mk (id b) (type b) (area b) (lat b) (lon b) (area_load_share b)
     (is_slack b) (gens b) (branches_out b) (branches_in b ++ [i]).
End Bus.

Module Gen.
Record t : Type := mk {
  id : string;
  type : string;
  fuel : string;
  bus : nat;
  min_down_time_hr : Q;
  min_up_time_hr : Q;
  pmax_mw : Q;
  pmax_pu : Q;
  pmin_mw : Q;
  pmin_pu : Q;
  ramp_rate_mw_min : Q;
  ramp_rate_pu_min : Q;
}.
End Gen.

Module Branch.
Record t : Type := mk {
  id : string;
  from_bus : nat;
  to_bus : nat;
  r_pu : Q;
  x_pu : Q;
  b_pu : Q;
  cap_mw : Q;
  cap_pu : Q;
  emergency_cap_mw : Q;
  emergency_cap_pu : Q;
}.
End Branch.

Module PSData.
Record t : Type := mk {
  basemva : Q;
  busdata : list Bus.t;
  busindexmap : gmap Z nat;
  gendata : list Gen.t;
  genindexmap : gmap string nat;
  branchdata : list Branch.t;
  branchindexmap : gmap string nat;
  slackbus : option nat;
  nbuses : nat;
  ngens : nat;
  nbranches : nat;
}.

(** [PSData.__init__] *)
Definition init (busdata : list Bus.t) (busindexmap : gmap Z nat)
    (gendata : list Gen.t) (genindexmap : gmap string nat)
    (branchdata : list Branch.t) (branchindexmap : gmap string nat)
    (basemva : Q) (slackbus : option nat) : t :=
  mk basemva busdata busindexmap gendata genindexmap branchdata
     branchindexmap slackbus
     (length busdata) (length gendata) (length branchdata).
End PSData.

(** [l[i] = f(l[i])]: an in-place change of the element at position [i]. *)
Definition list_modify {A : Type} (f : A → A) (l : list A) (i : nat)
  : result (list A) :=
  v ←! list_getitem l i; Ok (<[i := f v]> l).

(** ** [create_ps_data_from_rts_data] *)

(** First loop: the total load of every area. *)
Definition area_load_step (area_load : gmap Z Q) (bus : RtsBus.t) : gmap Z Q :=
  match area_load !! RtsBus.area bus with
  | Some v => <[RtsBus.area bus := v + RtsBus.mw_load bus]> area_load
  | None => <[RtsBus.area bus := RtsBus.mw_load bus]> area_load
  end.

Definition area_load_of (buses : list RtsBus.t) : gmap Z Q :=
  fold_left area_load_step buses ∅.

(** The state of the second loop. *)
Record bus_state : Type := mk_bus_state {
  st_slackbus : option nat;
  st_busindexmap : gmap Z nat;
  st_busdata : list Bus.t;
}.

Definition bus_step (area_load : gmap Z Q) (st : bus_state)
    (ib : nat * RtsBus.t) : result bus_state :=
  let '(i, bus) := ib in
  let is_slack := String.eqb (RtsBus.bus_type bus) "Ref" in
  let slackbus := if is_slack then Some i else st_slackbus st in
  total ←! getitem area_load (RtsBus.area bus);
  share ←! pydiv (RtsBus.mw_load bus) total;
  let newbus :=
    Bus.mk (RtsBus.bus_id bus) (RtsBus.bus_type bus) (RtsBus.area bus)
           (RtsBus.lat bus) (RtsBus.lng bus) share is_slack [] [] [] in
  Ok (mk_bus_state slackbus
        (<[RtsBus.bus_id bus := i]> (st_busindexmap st))
        (st_busdata st ++ [newbus])).

(** The state of the third loop. *)
Record gen_state : Type := mk_gen_state {
  gs_busdata : list Bus.t;
  gs_genindexmap : gmap string nat;
  gs_gendata : list Gen.t;
}.

Definition gen_step (busindexmap : gmap Z nat) (basemva : Q) (st : gen_state)
    (ig : nat * RtsGen.t) : result gen_state :=
  let '(i, gen) := ig in
  bus ←! getitem busindexmap (RtsGen.bus_id gen);
  pmax_pu ←! pydiv (RtsGen.pmax_mw gen) basemva;
  pmin_pu ←! pydiv (RtsGen.pmin_mw gen) basemva;
  ramp_rate_pu_min ←! pydiv (RtsGen.ramp_rate_mw_per_min gen) basemva;
  let newgen :=
    Gen.mk (RtsGen.gen_uid gen) (RtsGen.unit_type gen) (RtsGen.fuel gen) bus
           (RtsGen.min_down_time_hr gen) (RtsGen.min_up_time_hr gen)
           (RtsGen.pmax_mw gen) pmax_pu (RtsGen.pmin_mw gen) pmin_pu
           (RtsGen.ramp_rate_mw_per_min gen) ramp_rate_pu_min in
  pos ←! getitem busindexmap (RtsGen.bus_id gen);
  busdata ←! list_modify (Bus.append_gen i) (gs_busdata st) pos;
  Ok (mk_gen_state busdata
        (<[RtsGen.gen_uid gen := i]> (gs_genindexmap st))
        (gs_gendata st ++ [newgen])).

(** The state of the fourth loop. *)
Record branch_state : Type := mk_branch_state {
  bs_busdata : list Bus.t;
  bs_branchindexmap : gmap string nat;
  bs_branchdata : list Branch.t;
}.

Definition branch_step (busindexmap : gmap Z nat) (basemva : Q)
    (st : branch_state) (ib : nat * RtsBranch.t) : result branch_state :=
  let '(i, branch) := ib in
  from_bus ←! getitem busindexmap (RtsBranch.from_bus branch);
  to_bus ←! getitem busindexmap (RtsBranch.to_bus branch);
  cap_pu ←! pydiv (RtsBranch.cont_rating branch) basemva;
  emergency_cap_pu ←! pydiv (RtsBranch.ste_rating branch) basemva;
  let newbranch :=
    Branch.mk (RtsBranch.uid branch) from_bus to_bus
              (RtsBranch.r branch) (RtsBranch.x branch) (RtsBranch.b branch)
              (RtsBranch.cont_rating branch) cap_pu
              (RtsBranch.ste_rating branch) emergency_cap_pu in
  pos_out ←! getitem busindexmap (RtsBranch.from_bus branch);
  busdata ←! list_modify (Bus.append_branch_out i) (bs_busdata st) pos_out;
  pos_in ←! getitem busindexmap (RtsBranch.to_bus branch);
  busdata ←! list_modify (Bus.append_branch_in i) busdata pos_in;
  Ok (mk_branch_state busdata
        (<[RtsBranch.uid branch := i]> (bs_branchindexmap st))
        (bs_branchdata st ++ [newbranch])).

Definition create_ps_data_from_rts_data (rtsdata : RTSDataSet.t)
  : result PSData.t :=
  let area_load := area_load_of (RTSDataSet.bus rtsdata) in
  st ←! for_each (bus_step area_load) (enumerate (RTSDataSet.bus rtsdata))
                 (mk_bus_state None ∅ []);
  let busindexmap := st_busindexmap st in
  gs ←! for_each (gen_step busindexmap (RTSDataSet.basemva rtsdata))
                 (enumerate (RTSDataSet.gen rtsdata))
                 (mk_gen_state (st_busdata st) ∅ []);
  bs ←! for_each (branch_step busindexmap (RTSDataSet.basemva rtsdata))
                 (enumerate (RTSDataSet.branch rtsdata))
                 (mk_branch_state (gs_busdata gs) ∅ []);
  Ok (PSData.init (bs_busdata bs) busindexmap (gs_gendata gs)
        (gs_genindexmap gs) (bs_branchdata bs) (bs_branchindexmap bs)
        (RTSDataSet.basemva rtsdata) (st_slackbus st)).

(** ** Time series: [RTSDataSet.read_rts_timeseries]

    A pandas timestamp is embedded as the number of seconds since
    1970-01-01T00:00:00 of the proleptic Gregorian calendar. *)

Open Scope Z_scope.

Definition is_leap (y : Z) : bool :=
  (y mod 4 =? 0) && (negb (y mod 100 =? 0) || (y mod 400 =? 0)).

Definition days_in_month (y m : Z) : Z :=
  if m =? 2 then (if is_leap y then 29 else 28)
  else if (m =? 4) || (m =? 6) || (m =? 9) || (m =? 11) then 30
  else 31.

(** Days from 1970-01-01 to the civil date [y]-[m]-[d]. *)
Definition days_from_civil (y m d : Z) : Z :=
  let y' := if m <=? 2 then y - 1 else y in
  let era := y' / 400 in
  let yoe := y' - era * 400 in
  let mp := if 2 <? m then m - 3 else m + 9 in
  let doy := (153 * mp + 2) / 5 + d - 1 in
  let doe := yoe * 365 + yoe / 4 - yoe / 100 + doy in
  era * 146097 + doe - 719468.

(** The civil date of a day number: the inverse of [days_from_civil]. *)
Definition civil_from_days (z : Z) : Z * Z * Z :=
  let z' := z + 719468 in
  let era := z' / 146097 in
  let doe := z' - era * 146097 in
  let yoe := (doe - doe / 1460 + doe / 36524 - doe / 146096) / 365 in
  let doy := doe - (365 * yoe + yoe / 4 - yoe / 100) in
  let mp := (5 * doy + 2) / 153 in
  let d := doy - (153 * mp + 2) / 5 + 1 in
  let m := if mp <? 10 then mp + 3 else mp - 9 in
  let y := yoe + era * 400 in
  ((if m <=? 2 then y + 1 else y), m, d).

(** A timestamp as it is printed: year, month, day, hour, minute, second. *)
Definition isoformat (t : Z) : Z * Z * Z * (Z * Z * Z) :=
  let sod := t mod 86400 in
  (civil_from_days (t / 86400), (sod / 3600, (sod mod 3600) / 60, sod mod 60)).

(** The rows on which [pd.to_datetime] is modelled: calendar dates of the
    years that lie wholly inside the range of a nanosecond timestamp. *)
Definition valid_date (y m d : Z) : bool :=
  (1678 <=? y) && (y <=? 2261) && (1 <=? m) && (m <=? 12)
  && (1 <=? d) && (d <=? days_in_month y m).

(** [pd.to_datetime] of one row of [df[['Year', 'Month', 'Day']]]; pandas
    raises when the three numbers cannot be assembled into a date. *)
Definition to_datetime (y m d : Z) : result Z :=
  if valid_date y m d then Ok (days_from_civil y m d * 86400)
  else Raise ValueError.

Module TsRow.
Record t : Type := mk {
  Year : Z;
  Month : Z;
  Day : Z;
  Period : Z;
  values : list Q;
}.
End TsRow.

(** A time-series table: its rows, and the [Timestamp] column when the table
    has one. *)
Module DataFrame.
Record t : Type := mk {
  rows : list TsRow.t;
  Timestamp : option (list Z);
}.
End DataFrame.

(** [series.max()]; the maximum of an empty column is NaN, which equals no
    number. *)
Definition series_max (s : list Z) : option Z :=
  match s with
  | [] => None
  | x :: s' => Some (fold_left Z.max s' x)
  end.

Fixpoint map_result {A B : Type} (f : A → result B) (l : list A)
  : result (list B) :=
  match l with
  | [] => Ok []
  | x :: l' => y ←! f x; ys ←! map_result f l'; Ok (y :: ys)
  end.

(** [pd.to_datetime(df[['Year','Month','Day']]) + pd.to_timedelta(n, unit)],
    row by row, for a unit of [unit_s] seconds. *)
Definition timestamp_column (unit_s : Z) (count : TsRow.t → Z)
    (rows : list TsRow.t) : result (list Z) :=
  map_result
    (fun r =>
       date ←! to_datetime (TsRow.Year r) (TsRow.Month r) (TsRow.Day r);
       Ok (date + count r * unit_s))
    rows.

(** [read_rts_timeseries], from the table that [pd.read_csv] returned. *)
Definition read_rts_timeseries (df : DataFrame.t) : result DataFrame.t :=
  let period_max := series_max (map TsRow.Period (DataFrame.rows df)) in
  if bool_decide (period_max = Some 24) then
    ts ←! timestamp_column 3600 (fun r => TsRow.Period r - 1) (DataFrame.rows df);
    Ok (DataFrame.mk (DataFrame.rows df) (Some ts))
  else if bool_decide (period_max = Some 288) then
    ts ←! timestamp_column 60 (fun r => 5 * (TsRow.Period r - 1)) (DataFrame.rows df);
    Ok (DataFrame.mk (DataFrame.rows df) (Some ts))
  else Ok df.

Close Scope Z_scope.

(** * Properties *)

(** ** The error monad *)

Lemma bind_Ok {A B : Type} (m : result A) (k : A → result B) (b : B) :
  bind m k = Ok b → ∃ a, m = Ok a ∧ k a = Ok b.
Proof. destruct m as [a|e]; simpl; [eauto | discriminate]. Qed.


(** Splits a hypothesis [bind m k = Ok b] into its two runs. *)
Ltac inv_bind H :=
  let a := fresh "v" in
  let Ha := fresh "E" in
  apply bind_Ok in H; destruct H as (a & Ha & H).

Lemma for_each_app {S A : Type} (body : S → A → result S) (l1 l2 : list A) (s : S) :
  for_each body (l1 ++ l2) s = (s' ←! for_each body l1 s; for_each body l2 s').
Proof.
  revert s; induction l1 as [|x l1 IH]; intros s; simpl; [done|].
  destruct (body s x); simpl; auto.
Qed.

Lemma enumerate_from_length {A : Type} (n : nat) (l : list A) :
  length (enumerate_from n l) = length l.
Proof. revert n; induction l; intros; simpl; auto. Qed.

Lemma enumerate_from_lookup {A : Type} (n : nat) (l : list A) (i : nat) :
  enumerate_from n l !! i = (fun x => ((n + i)%nat, x)) <$> l !! i.
Proof.
  revert n i; induction l as [|x l IH]; intros n [|i]; simpl; try done.
  - by rewrite Nat.add_0_r.
  - rewrite IH. by replace (S n + i)%nat with (n + S i)%nat by lia.
Qed.

Lemma pydiv_Ok (x y q : Q) : pydiv x y = Ok q → ¬ y == 0 ∧ q = x / y.
Proof.
  unfold pydiv. destruct (Qeq_bool y 0) eqn:E; [discriminate|].
  intros [= <-]. split; [|done]. by apply Qeq_bool_neq.
Qed.

Lemma pydiv_nonzero (x y : Q) : ¬ y == 0 → pydiv x y = Ok (x / y).
Proof.
  intros Hy. unfold pydiv. destruct (Qeq_bool y 0) eqn:E; [|done].
  by apply Qeq_bool_eq in E.
Qed.


(** ** The cost-curve builder *)

(** What the source's [if dx==0 ... else ...] makes of segment [s] of the
    breakpoints [xs], [ys]: a slope and an intercept. *)
Definition segment_policy (xs ys : list Q) (s : nat) (slope intercept : Q) : Prop :=
  ∃ xlo xhi ylo yhi,
    xs !! (s - 1)%nat = Some xlo ∧ xs !! s = Some xhi ∧
    ys !! (s - 1)%nat = Some ylo ∧ ys !! s = Some yhi ∧
    (xhi - xlo == 0 → slope = 0 ∧ intercept = 0) ∧
    (¬ xhi - xlo == 0 →
       slope = (yhi - ylo) / (xhi - xlo) ∧ intercept = ylo - slope * xlo).

Lemma pwl_segment_spec (xs ys : list Q) (s : nat) (xlo xhi ylo yhi : Q) :
  xs !! (s - 1)%nat = Some xlo → xs !! s = Some xhi →
  ys !! (s - 1)%nat = Some ylo → ys !! s = Some yhi →
  ∃ slope intercept,
    pwl_segment xs ys s = Ok (slope, intercept) ∧
    segment_policy xs ys s slope intercept.
Proof.
  intros Hxlo Hxhi Hylo Hyhi.
  unfold pwl_segment, list_getitem. rewrite Hxlo, Hxhi, Hylo, Hyhi. simpl.
  destruct (Qeq_bool (xhi - xlo) 0) eqn:E.
  - exists 0, 0. split; [done|]. exists xlo, xhi, ylo, yhi.
    split_and!; try done. intros Hne. by apply Qeq_bool_eq in E.
  - apply Qeq_bool_neq in E. rewrite (pydiv_nonzero _ _ E). simpl.
    eexists _, _. split; [done|]. exists xlo, xhi, ylo, yhi.
    split_and!; done.
Qed.

Lemma pwl_breakpoints_shape (g : RtsGen.t) :
  ∃ x0 x1 x2 x3 y0 y1 y2 y3,
    pwl_breakpoints g = Ok ([x0; x1; x2; x3], [y0; y1; y2; y3]).
Proof. unfold pwl_breakpoints. simpl. by eexists _, _, _, _, _, _, _, _. Qed.

(** What the builder guarantees of one generator and its cost curve: three
    slopes and intercepts, each following [segment_policy]. *)
Definition pwl_policy (g : RtsGen.t) (c : PWLCost) : Prop :=
  ∃ xs ys,
    pwl_breakpoints g = Ok (xs, ys) ∧
    length (slopes c) = 3%nat ∧ length (intercepts c) = 3%nat ∧ nums c = 3%nat ∧
    ∀ s, (1 ≤ s ≤ 3)%nat →
      ∃ slope intercept,
        slopes c !! (s - 1)%nat = Some slope ∧
        intercepts c !! (s - 1)%nat = Some intercept ∧
        segment_policy xs ys s slope intercept.

Lemma pwl_of_gen_total (g : RtsGen.t) :
  ∃ c, pwl_of_gen g = Ok c ∧ pwl_policy g c.
Proof.
  destruct (pwl_breakpoints_shape g)
    as (x0 & x1 & x2 & x3 & y0 & y1 & y2 & y3 & Hbp).
  set (xs := [x0; x1; x2; x3]) in *. set (ys := [y0; y1; y2; y3]) in *.
  destruct (pwl_segment_spec xs ys 1 x0 x1 y0 y1) as (s1 & i1 & E1 & P1); try done.
  destruct (pwl_segment_spec xs ys 2 x1 x2 y1 y2) as (s2 & i2 & E2 & P2); try done.
  destruct (pwl_segment_spec xs ys 3 x2 x3 y2 y3) as (s3 & i3 & E3 & P3); try done.
  exists (mkPWLCost [s1; s2; s3] [i1; i2; i3] 3). split.
  - unfold pwl_of_gen. rewrite Hbp. simpl. rewrite E1. simpl. rewrite E2.
    simpl. rewrite E3. done.
  - exists xs, ys. repeat split; try done.
    intros s Hs.
    assert (s = 1 ∨ s = 2 ∨ s = 3)%nat as [-> | [-> | ->]] by lia; eauto.
Qed.

Lemma create_pwlcost_run (gens : list RtsGen.t) (acc : list PWLCost) :
  ∃ l, for_each (fun gencost g => c ←! pwl_of_gen g; Ok (gencost ++ [c])) gens acc
         = Ok (acc ++ l)
       ∧ Forall2 (fun g c => pwl_of_gen g = Ok c) gens l.
Proof.
  revert acc; induction gens as [|g gens IH]; intros acc; simpl.
  - exists []. by rewrite app_nil_r.
  - destruct (pwl_of_gen_total g) as (c & Hc & Hp). rewrite Hc. simpl.
    destruct (IH (acc ++ [c])) as (l & Hl & HF).
    exists (c :: l). rewrite Hl, <- app_assoc. split; [done|]. by constructor.
Qed.

(** The builder is total, and entry [i] of its result is the cost curve of
    generator [i]. *)
Lemma create_pwlcost_total (rtsdata : RTSDataSet.t) :
  ∃ gencost,
    create_pwlcost_from_rts_data rtsdata = Ok gencost ∧
    Forall2 (fun g c => pwl_of_gen g = Ok c) (RTSDataSet.gen rtsdata) gencost.
Proof.
  destruct (create_pwlcost_run (RTSDataSet.gen rtsdata) []) as (l & Hl & HF).
  by exists l.
Qed.

(** C6: the cost builder never fails, whatever the generator table holds: it
    returns one cost curve per generator, in order, each with three slopes
    and three intercepts; where the width [dx] of a segment is zero no
    division is made and slope and intercept are both [0], and otherwise the
    slope is [dy / dx] and the intercept is [y_start - slope * x_start]. *)
Theorem create_pwlcost_total_and_degenerate_policy (rtsdata : RTSDataSet.t) :
  ∃ gencost,
    create_pwlcost_from_rts_data rtsdata = Ok gencost ∧
    Forall2 pwl_policy (RTSDataSet.gen rtsdata) gencost.
Proof.
  destruct (create_pwlcost_total rtsdata) as (l & Hl & HF).
  exists l. split; [exact Hl|].
  eapply Forall2_impl; [exact HF|]. intros g c Hc. simpl in Hc.
  destruct (pwl_of_gen_total g) as (c' & Hc' & Hp). congruence.
Qed.

(** The round-trip scenario of the specification: the generator with
    [output_pct = [0, 0.3, 0.6, 1.0]], [hr_avg_0 = 10],
    [hr_incr_1..3 = [9, 10, 11]], a fuel price of [2] and [pmax_mw = 100];
    the columns that the cost builder does not read are left open. *)
Definition scenario_gen (gen_uid unit_type fuel : string) (bus_id : Z)
    (min_down_time_hr min_up_time_hr pmin_mw ramp_rate_mw_per_min : Q)
  : RtsGen.t :=
  RtsGen.mk gen_uid unit_type fuel bus_id min_down_time_hr min_up_time_hr
            100 pmin_mw ramp_rate_mw_per_min
            0 (3 # 10) (6 # 10) 1 10 9 10 11 2.


(** *** The slopes of a convex heat-rate curve *)





Definition nondegenerate (g : RtsGen.t) : Prop :=
  RtsGen.output_pct_0 g < RtsGen.output_pct_1 g ∧
  RtsGen.output_pct_1 g < RtsGen.output_pct_2 g ∧
  RtsGen.output_pct_2 g < RtsGen.output_pct_3 g.

Definition hr_incr_nondecreasing (g : RtsGen.t) : Prop :=
  RtsGen.hr_incr_1 g <= RtsGen.hr_incr_2 g ∧
  RtsGen.hr_incr_2 g <= RtsGen.hr_incr_3 g.





(** A generator whose heat-rate increments are increasing but negative. *)
Definition negative_heat_rate_gen : RtsGen.t :=
  RtsGen.mk "G1" "CT" "NG" 101 1 1 100 20 3
            0 (1 # 4) (2 # 4) (3 # 4) 10 (-10) (-1) 0 2.


(** The same failure from negative heat-rate increments alone, at a positive
    fuel price: the level curve of an interval then peaks at its start, the
    next interval starts from that peak, and the slopes come out as
    -0.02, 0.018, 0.002. *)
Lemma pwl_slopes_not_monotone_at_negative_heat_rate :
  nondegenerate negative_heat_rate_gen ∧
  hr_incr_nondecreasing negative_heat_rate_gen ∧
  ∃ c s1 s2 s3,
    pwl_of_gen negative_heat_rate_gen = Ok c ∧
    slopes c = [s1; s2; s3] ∧ s3 < s2.
Proof.
  split; [|split].
  - by vm_compute.
  - split; by vm_compute.
  - eexists _, _, _, _. split; [vm_compute; reflexivity|]. simpl.
    split; [reflexivity|]. by vm_compute.
Qed.



(** ** Loops over [enumerate(l)] *)

Lemma enumerate_from_app {A : Type} (n : nat) (l1 l2 : list A) :
  enumerate_from n (l1 ++ l2)
  = enumerate_from n l1 ++ enumerate_from (n + length l1) l2.
Proof.
  revert n; induction l1 as [|x l1 IH]; intros n; simpl.
  - by rewrite Nat.add_0_r.
  - rewrite IH. by replace (S n + length l1)%nat with (n + S (length l1))%nat by lia.
Qed.

(** A loop over a list that ends in [x] is the loop over the front followed
    by one more run of the body. *)
Lemma for_each_enumerate_snoc {S A : Type} (body : S → nat * A → result S)
    (pre : list A) (x : A) (s : S) :
  for_each body (enumerate (pre ++ [x])) s
  = (s' ←! for_each body (enumerate pre) s; body s' (length pre, x)).
Proof.
  unfold enumerate. rewrite enumerate_from_app, for_each_app. simpl.
  destruct (for_each body (enumerate_from 0 pre) s); simpl; [|done].
  by destruct (body a (length pre, x)).
Qed.

(** Invariants indexed by the rows consumed so far. *)
Lemma for_each_enumerate_inv {S A : Type} (body : S → nat * A → result S)
    (I : list A → S → Prop) (l : list A) (s0 : S) :
  I [] s0 →
  (∀ pre x suf s s',
     l = pre ++ x :: suf → I pre s → body s (length pre, x) = Ok s' →
     I (pre ++ [x]) s') →
  ∀ s', for_each body (enumerate l) s0 = Ok s' → I l s'.
Proof.
  intros H0 Hstep. induction l as [|x l IH] using rev_ind; intros s' Hrun.
  - injection Hrun as <-. exact H0.
  - rewrite for_each_enumerate_snoc in Hrun. inv_bind Hrun.
    apply (Hstep l x [] v s'); [done| |done].
    apply IH; [|done]. intros pre y suf s t -> Hs Ht.
    apply (Hstep pre y (suf ++ [x]) s t); [|done|done].
    by rewrite <- app_assoc.
Qed.


(** A loop whose body goes through at every row goes through. *)
Lemma for_each_enumerate_ok {S A : Type} (body : S → nat * A → result S)
    (I : list A → S → Prop) (l : list A) (s0 : S) :
  I [] s0 →
  (∀ pre x suf s,
     l = pre ++ x :: suf → I pre s →
     ∃ s', body s (length pre, x) = Ok s' ∧ I (pre ++ [x]) s') →
  ∃ s', for_each body (enumerate l) s0 = Ok s' ∧ I l s'.
Proof.
  intros H0 Hstep. induction l as [|x l IH] using rev_ind.
  - by exists s0.
  - destruct IH as (s & Hs & HI).
    { intros pre y suf s -> Hs.
      apply (Hstep pre y (suf ++ [x]) s); [|done]. by rewrite <- app_assoc. }
    destruct (Hstep l x [] s) as (s' & Hs' & HI'); [done|done|].
    exists s'. rewrite for_each_enumerate_snoc, Hs. done.
Qed.

(** ** The last row with a property *)

(** [i] is the position of the last element of [l] that satisfies [P]. *)
Definition last_where {A : Type} (P : A → Prop) (l : list A) (i : nat) : Prop :=
  (∃ x, l !! i = Some x ∧ P x) ∧
  ∀ j y, (i < j)%nat → l !! j = Some y → ¬ P y.

Lemma last_where_snoc_yes {A : Type} (P : A → Prop) (l : list A) (x : A) (i : nat) :
  P x → last_where P (l ++ [x]) i ↔ i = length l.
Proof.
  intros Hx. split.
  - intros [(y & Hy & HPy) Hlast].
    destruct (decide (i < length l)%nat) as [Hlt|Hge].
    + exfalso. apply (Hlast (length l) x Hlt); [|done].
      by rewrite list_lookup_middle.
    + apply lookup_lt_Some in Hy. rewrite length_app in Hy. simpl in Hy. lia.
  - intros ->. split.
    + exists x. by rewrite list_lookup_middle.
    + intros j y Hj Hy. apply lookup_lt_Some in Hy.
      rewrite length_app in Hy. simpl in Hy. lia.
Qed.

Lemma last_where_snoc_no {A : Type} (P : A → Prop) (l : list A) (x : A) (i : nat) :
  ¬ P x → last_where P (l ++ [x]) i ↔ last_where P l i.
Proof.
  intros Hx. split.
  - intros [(y & Hy & HPy) Hlast]. split.
    + exists y. split; [|done].
      destruct (decide (i < length l)%nat) as [Hlt|Hge].
      * by rewrite lookup_app_l in Hy.
      * assert (i = length l) as ->.
        { apply lookup_lt_Some in Hy. rewrite length_app in Hy. simpl in Hy. lia. }
        rewrite list_lookup_middle in Hy by done. by injection Hy as ->.
    + intros j z Hj Hz. apply (Hlast j z Hj).
      rewrite lookup_app_l; [done|]. by apply lookup_lt_Some in Hz.
  - intros [(y & Hy & HPy) Hlast]. split.
    + exists y. split; [|done].
      rewrite lookup_app_l; [done|]. by apply lookup_lt_Some in Hy.
    + intros j z Hj Hz.
      destruct (decide (j < length l)%nat) as [Hlt|Hge].
      * rewrite lookup_app_l in Hz by done. by apply (Hlast j z Hj).
      * assert (j = length l) as ->.
        { apply lookup_lt_Some in Hz. rewrite length_app in Hz. simpl in Hz. lia. }
        rewrite list_lookup_middle in Hz by done. by injection Hz as <-.
Qed.

Lemma last_where_nil {A : Type} (P : A → Prop) (i : nat) : ¬ last_where P [] i.
Proof. intros [(x & Hx & _) _]. by rewrite lookup_nil in Hx. Qed.

Lemma last_where_unique {A : Type} (P : A → Prop) (l : list A) (i j : nat) :
  last_where P l i → last_where P l j → i = j.
Proof.
  intros [(x & Hx & HPx) Hi] [(y & Hy & HPy) Hj].
  destruct (Nat.lt_trichotomy i j) as [H | [H | H]]; [|done|].
  - by destruct (Hi j y H Hy).
  - by destruct (Hj i x H Hx).
Qed.


(** ** The area loads *)

Definition Qsum (l : list Q) : Q := foldr Qplus 0 l.

(** The loads of the buses of area [a], in table order. *)
Definition loads_of (a : Z) (buses : list RtsBus.t) : list Q :=
  RtsBus.mw_load <$> filter (fun b => RtsBus.area b = a) buses.

(** The total load of area [a]. *)
Definition area_total (a : Z) (buses : list RtsBus.t) : Q := Qsum (loads_of a buses).

(** [a] is the area of some bus of the table. *)
Definition area_occurs (a : Z) (buses : list RtsBus.t) : Prop :=
  ∃ b, b ∈ buses ∧ RtsBus.area b = a.

Lemma fold_left_Qplus_sum (l : list Q) (v : Q) : fold_left Qplus l v == v + Qsum l.
Proof.
  revert v; induction l as [|x l IH]; intros v; simpl.
  - ring.
  - rewrite IH. ring.
Qed.

Lemma loads_of_cons (a : Z) (b : RtsBus.t) (buses : list RtsBus.t) :
  loads_of a (b :: buses)
  = if decide (RtsBus.area b = a) then RtsBus.mw_load b :: loads_of a buses
    else loads_of a buses.
Proof. unfold loads_of. rewrite filter_cons. by case_decide. Qed.

(** The dictionary after the first loop, started from [m]. *)
Lemma area_load_fold (buses : list RtsBus.t) (m : gmap Z Q) (a : Z) :
  fold_left area_load_step buses m !! a
  = match m !! a, loads_of a buses with
    | Some v, ls => Some (fold_left Qplus ls v)
    | None, [] => None
    | None, x :: ls => Some (fold_left Qplus ls x)
    end.
Proof.
  revert m; induction buses as [|b buses IH]; intros m.
  - simpl. by destruct (m !! a).
  - simpl. rewrite IH, loads_of_cons. unfold area_load_step.
    destruct (decide (RtsBus.area b = a)) as [->|Hne].
    + destruct (m !! a) as [v|] eqn:Hm; by rewrite lookup_insert_eq.
    + destruct (m !! RtsBus.area b); by rewrite lookup_insert_ne.
Qed.

Lemma loads_of_nil_iff (a : Z) (buses : list RtsBus.t) :
  loads_of a buses = [] ↔ ¬ area_occurs a buses.
Proof.
  unfold loads_of, area_occurs. split.
  - intros H (b & Hb & Ha). apply fmap_nil_inv in H.
    assert (b ∈ filter (fun b => RtsBus.area b = a) buses) as Hin
      by by apply list_elem_of_filter.
    rewrite H in Hin. exact (not_elem_of_nil _ Hin).
  - intros H. destruct (filter _ buses) as [|b l] eqn:E; [done|].
    exfalso. apply H. exists b.
    assert (b ∈ filter (fun b => RtsBus.area b = a) buses) as Hin
      by (rewrite E; left).
    apply list_elem_of_filter in Hin as [Ha Hb]. done.
Qed.

(** After the first loop [area_load] has exactly the areas of the table as
    keys, each with the total load of its buses. *)
Lemma area_load_of_lookup (buses : list RtsBus.t) (a : Z) :
  (area_occurs a buses →
     ∃ t, area_load_of buses !! a = Some t ∧ t == area_total a buses) ∧
  (¬ area_occurs a buses → area_load_of buses !! a = None).
Proof.
  unfold area_load_of. rewrite area_load_fold, lookup_empty. split.
  - intros Hocc. destruct (loads_of a buses) as [|x ls] eqn:E.
    + by apply loads_of_nil_iff in E.
    + eexists. split; [done|]. unfold area_total. rewrite E.
      by rewrite fold_left_Qplus_sum.
  - intros Hocc. apply loads_of_nil_iff in Hocc. by rewrite Hocc.
Qed.

(** ** The bus loop *)

Definition is_ref (b : RtsBus.t) : Prop := RtsBus.bus_type b = "Ref".

(** The fields of a bus that the generator and branch loops leave alone. *)
Definition static_fields (b : Bus.t) : Z * string * Z * Q * Q * Q * bool :=
  (Bus.id b, Bus.type b, Bus.area b, Bus.lat b, Bus.lon b,
   Bus.area_load_share b, Bus.is_slack b).

(** Bus [nb] is what the bus loop makes of the row [row]. *)
Definition bus_made (area_load : gmap Z Q) (row : RtsBus.t) (nb : Bus.t) : Prop :=
  ∃ total,
    area_load !! RtsBus.area row = Some total ∧ ¬ total == 0 ∧
    static_fields nb
    = (RtsBus.bus_id row, RtsBus.bus_type row, RtsBus.area row,
       RtsBus.lat row, RtsBus.lng row, RtsBus.mw_load row / total,
       String.eqb (RtsBus.bus_type row) "Ref").

(** The invariant of the bus loop after the rows [pre]. *)
Definition bus_inv (area_load : gmap Z Q) (pre : list RtsBus.t) (st : bus_state)
  : Prop :=
  Forall2 (bus_made area_load) pre (st_busdata st) ∧
  (∀ i, st_slackbus st = Some i ↔ last_where is_ref pre i) ∧
  (∀ k v, st_busindexmap st !! k = Some v
          ↔ last_where (fun b => RtsBus.bus_id b = k) pre v).

Lemma bus_inv_init (area_load : gmap Z Q) :
  bus_inv area_load [] (mk_bus_state None ∅ []).
Proof.
  split_and!; simpl.
  - constructor.
  - intros i. split; [done|]. intros H. by apply last_where_nil in H.
  - intros k v. rewrite lookup_empty. split; [done|].
    intros H. by apply last_where_nil in H.
Qed.

Lemma bus_step_Ok (area_load : gmap Z Q) (st st' : bus_state) (i : nat)
    (bus : RtsBus.t) :
  bus_step area_load st (i, bus) = Ok st' →
  ∃ total,
    area_load !! RtsBus.area bus = Some total ∧ ¬ total == 0 ∧
    st' = mk_bus_state
            (if String.eqb (RtsBus.bus_type bus) "Ref" then Some i
             else st_slackbus st)
            (<[RtsBus.bus_id bus := i]> (st_busindexmap st))
            (st_busdata st
               ++ [Bus.mk (RtsBus.bus_id bus) (RtsBus.bus_type bus)
                          (RtsBus.area bus) (RtsBus.lat bus) (RtsBus.lng bus)
                          (RtsBus.mw_load bus / total)
                          (String.eqb (RtsBus.bus_type bus) "Ref") [] [] []]).
Proof.
  unfold bus_step, getitem. intros H.
  destruct (area_load !! RtsBus.area bus) as [total|]; [|discriminate].
  simpl in H. inv_bind H. apply pydiv_Ok in E as [Hnz ->].
  injection H as <-. by exists total.
Qed.


Lemma bus_step_inv (area_load : gmap Z Q) (pre : list RtsBus.t)
    (bus : RtsBus.t) (st st' : bus_state) :
  bus_inv area_load pre st →
  bus_step area_load st (length pre, bus) = Ok st' →
  bus_inv area_load (pre ++ [bus]) st'.
Proof.
  intros (Hdata & Hslack & Hmap) Hstep.
  apply bus_step_Ok in Hstep as (total & Hal & Hnz & ->).
  split_and!; simpl.
  - apply Forall2_app; [done|]. constructor; [|constructor].
    by exists total.
  - intros i. destruct (String.eqb (RtsBus.bus_type bus) "Ref") eqn:E.
    + apply String.eqb_eq in E. rewrite last_where_snoc_yes by done.
      split; [by intros [= <-] | by intros ->].
    + apply String.eqb_neq in E. rewrite last_where_snoc_no by done.
      apply Hslack.
  - intros k v. destruct (decide (RtsBus.bus_id bus = k)) as [<-|Hne].
    + rewrite lookup_insert_eq, last_where_snoc_yes by done.
      split; [by intros [= <-] | by intros ->].
    + rewrite lookup_insert_ne, last_where_snoc_no by done. apply Hmap.
Qed.

(** ** The generator and branch loops *)

Lemma list_modify_Ok {A : Type} (f : A → A) (l l' : list A) (i : nat) :
  list_modify f l i = Ok l' →
  ∃ v, l !! i = Some v ∧ l' = <[i := f v]> l.
Proof.
  unfold list_modify, list_getitem. destruct (l !! i) as [v|]; simpl; [|done].
  intros [= <-]. by exists v.
Qed.


(** An append to one of the three lists of a bus keeps the other fields of
    every bus, and the number of buses. *)
Lemma list_modify_static (f : Bus.t → Bus.t) (l l' : list Bus.t) (i : nat) :
  (∀ b, static_fields (f b) = static_fields b) →
  list_modify f l i = Ok l' →
  static_fields <$> l' = static_fields <$> l ∧ (i < length l)%nat.
Proof.
  intros Hf H. apply list_modify_Ok in H as (v & Hv & ->). split.
  - rewrite list_fmap_insert, Hf. apply list_insert_id.
    by rewrite list_lookup_fmap, Hv.
  - by apply lookup_lt_Some in Hv.
Qed.

Lemma fmap_static_length (l l' : list Bus.t) :
  static_fields <$> l' = static_fields <$> l → length l' = length l.
Proof. intros H. apply (f_equal length) in H. by rewrite !length_fmap in H. Qed.

(** Generator [ng] is what the generator loop makes of the row [gen], in a
    network of [nb] buses. *)
Definition gen_made (busindexmap : gmap Z nat) (basemva : Q) (nb : nat)
    (gen : RtsGen.t) (ng : Gen.t) : Prop :=
  ∃ pos,
    busindexmap !! RtsGen.bus_id gen = Some pos ∧ (pos < nb)%nat ∧
    ¬ basemva == 0 ∧
    ng = Gen.mk (RtsGen.gen_uid gen) (RtsGen.unit_type gen) (RtsGen.fuel gen)
           pos (RtsGen.min_down_time_hr gen) (RtsGen.min_up_time_hr gen)
           (RtsGen.pmax_mw gen) (RtsGen.pmax_mw gen / basemva)
           (RtsGen.pmin_mw gen) (RtsGen.pmin_mw gen / basemva)
           (RtsGen.ramp_rate_mw_per_min gen)
           (RtsGen.ramp_rate_mw_per_min gen / basemva).

Definition gen_inv (busindexmap : gmap Z nat) (basemva : Q)
    (busdata0 : list Bus.t) (pre : list RtsGen.t) (st : gen_state) : Prop :=
  static_fields <$> gs_busdata st = static_fields <$> busdata0 ∧
  Forall2 (gen_made busindexmap basemva (length busdata0)) pre (gs_gendata st).

Lemma gen_step_inv (busindexmap : gmap Z nat) (basemva : Q)
    (busdata0 : list Bus.t) (pre : list RtsGen.t) (gen : RtsGen.t)
    (st st' : gen_state) :
  gen_inv busindexmap basemva busdata0 pre st →
  gen_step busindexmap basemva st (length pre, gen) = Ok st' →
  gen_inv busindexmap basemva busdata0 (pre ++ [gen]) st'.
Proof.
  intros (Hstatic & Hdata) Hstep. unfold gen_step, getitem in Hstep.
  destruct (busindexmap !! RtsGen.bus_id gen) as [pos|] eqn:Hpos;
    [|discriminate].
  simpl in Hstep.
  inv_bind Hstep. apply pydiv_Ok in E as [Hnz ->].
  inv_bind Hstep. apply pydiv_Ok in E as [_ ->].
  inv_bind Hstep. apply pydiv_Ok in E as [_ ->].
  inv_bind Hstep. injection Hstep as <-.
  apply list_modify_static in E as [Hst Hlt]; [|done].
  split; simpl.
  - by rewrite Hst.
  - apply Forall2_app; [done|]. constructor; [|constructor].
    exists pos. split_and!; try done.
    by rewrite <- (fmap_static_length _ _ Hstatic).
Qed.

(** Branch [nbr] is what the branch loop makes of the row [branch]. *)
Definition branch_made (busindexmap : gmap Z nat) (basemva : Q) (nb : nat)
    (branch : RtsBranch.t) (nbr : Branch.t) : Prop :=
  ∃ pos_from pos_to,
    busindexmap !! RtsBranch.from_bus branch = Some pos_from ∧
    busindexmap !! RtsBranch.to_bus branch = Some pos_to ∧
    (pos_from < nb)%nat ∧ (pos_to < nb)%nat ∧
    ¬ basemva == 0 ∧
    nbr = Branch.mk (RtsBranch.uid branch) pos_from pos_to
            (RtsBranch.r branch) (RtsBranch.x branch) (RtsBranch.b branch)
            (RtsBranch.cont_rating branch) (RtsBranch.cont_rating branch / basemva)
            (RtsBranch.ste_rating branch) (RtsBranch.ste_rating branch / basemva).

Definition branch_inv (busindexmap : gmap Z nat) (basemva : Q)
    (busdata0 : list Bus.t) (pre : list RtsBranch.t) (st : branch_state) : Prop :=
  static_fields <$> bs_busdata st = static_fields <$> busdata0 ∧
  Forall2 (branch_made busindexmap basemva (length busdata0)) pre
          (bs_branchdata st).

Lemma branch_step_inv (busindexmap : gmap Z nat) (basemva : Q)
    (busdata0 : list Bus.t) (pre : list RtsBranch.t) (branch : RtsBranch.t)
    (st st' : branch_state) :
  branch_inv busindexmap basemva busdata0 pre st →
  branch_step busindexmap basemva st (length pre, branch) = Ok st' →
  branch_inv busindexmap basemva busdata0 (pre ++ [branch]) st'.
Proof.
  intros (Hstatic & Hdata) Hstep. unfold branch_step, getitem in Hstep.
  destruct (busindexmap !! RtsBranch.from_bus branch) as [pf|] eqn:Hpf;
    [|discriminate].
  destruct (busindexmap !! RtsBranch.to_bus branch) as [pt|] eqn:Hpt;
    [|discriminate].
  simpl in Hstep.
  inv_bind Hstep. apply pydiv_Ok in E as [Hnz ->].
  inv_bind Hstep. apply pydiv_Ok in E as [_ ->].
  inv_bind Hstep. inv_bind Hstep. injection Hstep as <-.
  apply list_modify_static in E as [Hst1 Hlt1]; [|done].
  apply list_modify_static in E0 as [Hst2 Hlt2]; [|done].
  pose proof (fmap_static_length _ _ Hstatic) as Hlen.
  pose proof (fmap_static_length _ _ Hst1) as Hlen1.
  split; simpl.
  - by rewrite Hst2, Hst1.
  - apply Forall2_app; [done|]. constructor; [|constructor].
    exists pf, pt. split_and!; try done; lia.
Qed.

(** ** What a returned [PSData] holds *)

Lemma Forall2_static_transfer (area_load : gmap Z Q) (rows : list RtsBus.t)
    (l l' : list Bus.t) :
  Forall2 (bus_made area_load) rows l →
  static_fields <$> l' = static_fields <$> l →
  Forall2 (bus_made area_load) rows l'.
Proof.
  intros HF. revert l'. induction HF as [|row nb rows l Hm HF IH]; intros l' Heq.
  - apply fmap_nil_inv in Heq as ->. constructor.
  - destruct l' as [|nb' l']; [done|].
    pose proof (f_equal head Heq) as Hhd. pose proof (f_equal tail Heq) as Htl.
    simpl in Hhd, Htl. apply (inj Some) in Hhd.
    constructor; [|by apply IH].
    destruct Hm as (total & ? & ? & Hs). exists total. by rewrite Hhd.
Qed.

(** Every field of a [PSData] that [create_ps_data_from_rts_data] returns,
    in terms of the tables it was built from. *)
Lemma create_ps_data_Ok (rtsdata : RTSDataSet.t) (ps : PSData.t) :
  create_ps_data_from_rts_data rtsdata = Ok ps →
  let buses := RTSDataSet.bus rtsdata in
  let basemva := RTSDataSet.basemva rtsdata in
  PSData.basemva ps = basemva ∧
  Forall2 (bus_made (area_load_of buses)) buses (PSData.busdata ps) ∧
  (∀ i, PSData.slackbus ps = Some i ↔ last_where is_ref buses i) ∧
  (∀ k v, PSData.busindexmap ps !! k = Some v
          ↔ last_where (fun b => RtsBus.bus_id b = k) buses v) ∧
  Forall2 (gen_made (PSData.busindexmap ps) basemva (length buses))
          (RTSDataSet.gen rtsdata) (PSData.gendata ps) ∧
  Forall2 (branch_made (PSData.busindexmap ps) basemva (length buses))
          (RTSDataSet.branch rtsdata) (PSData.branchdata ps) ∧
  PSData.nbuses ps = length buses ∧
  PSData.ngens ps = length (RTSDataSet.gen rtsdata) ∧
  PSData.nbranches ps = length (RTSDataSet.branch rtsdata).
Proof.
  intros Hrun buses basemva. unfold create_ps_data_from_rts_data in Hrun.
  fold buses basemva in Hrun.
  inv_bind Hrun. rename v into st, E into Hbus.
  inv_bind Hrun. rename v into gs, E into Hgen.
  inv_bind Hrun. rename v into bs, E into Hbranch.
  injection Hrun as <-. simpl.
  apply (for_each_enumerate_inv _ (bus_inv (area_load_of buses))) in Hbus;
    [|apply bus_inv_init|by intros; eapply bus_step_inv].
  destruct Hbus as (Hdata & Hslack & Hmap).
  pose proof (Forall2_length _ _ _ Hdata) as Hlen.
  apply (for_each_enumerate_inv _
           (gen_inv (st_busindexmap st) basemva (st_busdata st))) in Hgen;
    [|by split; [|constructor]|by intros; eapply gen_step_inv].
  destruct Hgen as (Hst1 & Hgens). simpl in Hst1.
  apply (for_each_enumerate_inv _
           (branch_inv (st_busindexmap st) basemva (gs_busdata gs))) in Hbranch;
    [|by split; [|constructor]|by intros; eapply branch_step_inv].
  destruct Hbranch as (Hst2 & Hbranches).
  pose proof (fmap_static_length _ _ Hst1) as Hlen1.
  pose proof (fmap_static_length _ _ Hst2) as Hlen2.
  rewrite <- Hlen in Hgens. rewrite Hlen1, <- Hlen in Hbranches.
  split_and!; try done.
  - apply (Forall2_static_transfer _ _ (st_busdata st)); [done|].
    by rewrite Hst2, Hst1.
  - rewrite Hlen2, Hlen1. done.
  - symmetry. by eapply Forall2_length.
  - symmetry. by eapply Forall2_length.
Qed.

(** ** Where the construction fails *)


Lemma last_where_elem {A : Type} (P : A → Prop) (l : list A) (i : nat) :
  last_where P l i → ∃ x, x ∈ l ∧ P x.
Proof.
  intros [(x & Hx & HP) _]. exists x. split; [|done].
  apply list_elem_of_lookup. eauto.
Qed.

Lemma last_where_exists {A : Type} (P : A → Prop) `{!∀ x, Decision (P x)}
    (l : list A) :
  (∃ x, x ∈ l ∧ P x) → ∃ i, last_where P l i.
Proof.
  induction l as [|y l IH] using rev_ind; intros (x & Hx & HP).
  - by apply not_elem_of_nil in Hx.
  - destruct (decide (P y)) as [Hy|Hy].
    + exists (length l). by apply last_where_snoc_yes.
    + destruct IH as (i & Hi).
      { exists x. split; [|done]. apply elem_of_app in Hx as [Hx|Hx]; [done|].
        apply list_elem_of_singleton in Hx as ->. done. }
      exists i. by apply last_where_snoc_no.
Qed.

(** [k] is the id of some row of the bus table. *)
Definition known_bus (k : Z) (buses : list RtsBus.t) : Prop :=
  ∃ b, b ∈ buses ∧ RtsBus.bus_id b = k.










(** ** A small network

    Three buses in two areas, the second one the reference bus; one
    generator at the reference bus; one branch of rating 150 from the first
    bus to the third; a base power of 100. *)
Definition example_rts : RTSDataSet.t :=
  RTSDataSet.mk
    [RtsBus.mk 101 "PQ" 1 (33 # 1) (-(113 # 1)) 30;
     RtsBus.mk 102 "Ref" 1 (34 # 1) (-(114 # 1)) 70;
     RtsBus.mk 103 "PV" 2 (35 # 1) (-(115 # 1)) 50]
    [scenario_gen "102_CT_1" "CT" "NG" 102 1 1 20 3]
    [RtsBranch.mk "A1" 101 103 (3 # 1000) (14 # 1000) (46 # 100) 150 200]
    100.

Definition example_ps : PSData.t :=
  match create_ps_data_from_rts_data example_rts with
  | Ok ps => ps
  | Raise _ => PSData.init [] ∅ [] ∅ [] ∅ 0 None
  end.

Lemma example_ps_created :
  create_ps_data_from_rts_data example_rts = Ok example_ps.
Proof. by vm_compute. Qed.

(** ** Per-unit values *)

(** C1: in a [PSData] that the construction returns, generator [i] carries
    the megawatt values of row [i] of the generator table and, as per-unit
    values, their quotients by [basemva]; branch [i] likewise carries the two
    ratings of row [i] and their quotients by [basemva].  A branch with
    [cont_rating = 150] under [basemva = 100] has [cap_pu = 1.5]. *)
Theorem per_unit_is_division_by_basemva (rtsdata : RTSDataSet.t) (ps : PSData.t) :
  create_ps_data_from_rts_data rtsdata = Ok ps →
  let basemva := RTSDataSet.basemva rtsdata in
  PSData.basemva ps = basemva ∧
  (∀ i g, PSData.gendata ps !! i = Some g →
     ∃ row, RTSDataSet.gen rtsdata !! i = Some row ∧
       Gen.pmax_mw g = RtsGen.pmax_mw row ∧
       Gen.pmin_mw g = RtsGen.pmin_mw row ∧
       Gen.ramp_rate_mw_min g = RtsGen.ramp_rate_mw_per_min row ∧
       Gen.pmax_pu g = Gen.pmax_mw g / basemva ∧
       Gen.pmin_pu g = Gen.pmin_mw g / basemva ∧
       Gen.ramp_rate_pu_min g = Gen.ramp_rate_mw_min g / basemva) ∧
  (∀ i br, PSData.branchdata ps !! i = Some br →
     ∃ row, RTSDataSet.branch rtsdata !! i = Some row ∧
       Branch.cap_mw br = RtsBranch.cont_rating row ∧
       Branch.emergency_cap_mw br = RtsBranch.ste_rating row ∧
       Branch.cap_pu br = Branch.cap_mw br / basemva ∧
       Branch.emergency_cap_pu br = Branch.emergency_cap_mw br / basemva ∧
       (RtsBranch.cont_rating row == 150 → basemva == 100 →
        Branch.cap_pu br == 3 # 2)).
Proof.
  intros Hrun basemva. apply create_ps_data_Ok in Hrun
    as (Hbase & _ & _ & _ & Hgen & Hbr & _).
  split; [done|]. split.
  - intros i g Hg.
    destruct (Forall2_lookup_r _ _ _ _ _ Hgen Hg)
      as (row & Hrow & pos & _ & _ & _ & ->).
    exists row. by split_and!.
  - intros i br Hi.
    destruct (Forall2_lookup_r _ _ _ _ _ Hbr Hi)
      as (row & Hrow & pf & pt & _ & _ & _ & _ & _ & ->).
    exists row. simpl. split_and!; try done.
    intros Hc Hb. fold basemva. by rewrite Hc, Hb.
Qed.

Lemma per_unit_is_division_by_basemva_witness :
  create_ps_data_from_rts_data example_rts = Ok example_ps ∧
  PSData.basemva example_ps = 100 ∧
  ∃ br, PSData.branchdata example_ps !! 0%nat = Some br ∧
        Branch.cap_mw br = 150 ∧ Branch.cap_pu br == 3 # 2.
Proof.
  split; [exact example_ps_created|].
  destruct (per_unit_is_division_by_basemva example_rts example_ps
              example_ps_created) as (Hbase & _ & Hbr).
  split; [exact Hbase|].
  destruct (PSData.branchdata example_ps !! 0%nat) as [br|] eqn:E;
    [|by vm_compute in E].
  destruct (Hbr 0%nat br E) as (row & Hrow & Hmw & _ & _ & _ & Hex).
  injection Hrow as <-. exists br. split_and!; [done|exact Hmw|].
  apply Hex; reflexivity.
Defined.

(** ** Area load shares *)


Lemma bus_made_fields (area_load : gmap Z Q) (row : RtsBus.t) (nb : Bus.t) :
  bus_made area_load row nb →
  ∃ total,
    area_load !! RtsBus.area row = Some total ∧ ¬ total == 0 ∧
    Bus.id nb = RtsBus.bus_id row ∧ Bus.type nb = RtsBus.bus_type row ∧
    Bus.area nb = RtsBus.area row ∧
    Bus.area_load_share nb = RtsBus.mw_load row / total ∧
    Bus.is_slack nb = String.eqb (RtsBus.bus_type row) "Ref".
Proof.
  intros (total & Hal & Hnz & Hs). exists total.
  unfold static_fields in Hs. injection Hs as ? ? ? ? ? ? ?. by split_and!.
Qed.




(** ** The slack bus *)

Lemma last_where_only {A : Type} (P : A → Prop) (l : list A) (i : nat) (x : A) :
  l !! i = Some x → P x →
  (∀ j y, l !! j = Some y → P y → j = i) →
  last_where P l i.
Proof.
  intros Hx HP Hone. split; [eauto|].
  intros j y Hj Hy HPy. specialize (Hone j y Hy HPy). lia.
Qed.

(** C3: in a [PSData] that the construction returns, bus [i] has the type
    of row [i] and its slack flag is set iff that type is "Ref"; [slackbus]
    is the position of the last row of type "Ref".  So with exactly one such
    row, at position [i], [slackbus] is [i] and bus [i] is the one bus whose
    flag is set. *)
Theorem slack_bus_is_the_ref_bus (rtsdata : RTSDataSet.t) (ps : PSData.t) :
  create_ps_data_from_rts_data rtsdata = Ok ps →
  let buses := RTSDataSet.bus rtsdata in
  length (PSData.busdata ps) = length buses ∧
  (∀ i b, PSData.busdata ps !! i = Some b →
     (∃ row, buses !! i = Some row ∧ Bus.type b = RtsBus.bus_type row) ∧
     (Bus.is_slack b = true ↔ Bus.type b = "Ref")) ∧
  (∀ i, PSData.slackbus ps = Some i ↔ last_where is_ref buses i) ∧
  (∀ i row,
     buses !! i = Some row → is_ref row →
     (∀ j row', buses !! j = Some row' → is_ref row' → j = i) →
     PSData.slackbus ps = Some i ∧
     ∀ j b, PSData.busdata ps !! j = Some b → (Bus.is_slack b = true ↔ j = i)).
Proof.
  intros Hrun buses. apply create_ps_data_Ok in Hrun
    as (_ & Hbus & Hslack & _). fold buses in Hbus, Hslack.
  assert (∀ i b, PSData.busdata ps !! i = Some b →
            ∃ row, buses !! i = Some row ∧ Bus.type b = RtsBus.bus_type row ∧
                   (Bus.is_slack b = true ↔ is_ref row)) as Hflag.
  { intros i b Hb.
    destruct (Forall2_lookup_r _ _ _ _ _ Hbus Hb) as (row & Hrow & Hm).
    apply bus_made_fields in Hm as (t & _ & _ & _ & Htype & _ & _ & Hsl).
    exists row. split_and!; try done. rewrite Hsl. apply String.eqb_eq. }
  split_and!.
  - symmetry. by eapply Forall2_length.
  - intros i b Hb. destruct (Hflag i b Hb) as (row & Hrow & Htype & Hsl).
    split; [eauto|]. by rewrite Htype.
  - exact Hslack.
  - intros i row Hrow Href Hone. split.
    + apply Hslack. by eapply last_where_only.
    + intros j b Hb. destruct (Hflag j b Hb) as (row' & Hrow' & _ & Hsl).
      rewrite Hsl. split.
      * intros Href'. by eapply Hone.
      * intros ->. by assert (row' = row) as -> by congruence.
Qed.

Lemma slack_bus_is_the_ref_bus_witness :
  create_ps_data_from_rts_data example_rts = Ok example_ps ∧
  PSData.slackbus example_ps = Some 1%nat ∧
  ∀ j b, PSData.busdata example_ps !! j = Some b →
         (Bus.is_slack b = true ↔ j = 1%nat).
Proof.
  split; [exact example_ps_created|].
  refine (proj2 (proj2 (proj2 (slack_bus_is_the_ref_bus example_rts example_ps
                                 example_ps_created)))
            1%nat (RtsBus.mk 102 "Ref" 1 (34 # 1) (-(114 # 1)) 70) _ _ _).
  - reflexivity.
  - reflexivity.
  - intros [|[|[|j]]] row' Hrow' Href; simpl in Hrow'; try done;
      injection Hrow' as <-; discriminate Href.
Defined.

(** ** Deciding the two defects of a data set *)










(** ** Areas without load *)





(** ** Dangling bus ids *)






(** ** No reference bus *)








(** ** Timestamps *)

Open Scope Z_scope.

(** *** The calendar *)

Example epoch_day : days_from_civil 1970 1 1 = 0.
Proof. reflexivity. Qed.

Example new_year_2020 : days_from_civil 2020 1 1 = 18262.
Proof. reflexivity. Qed.

Lemma is_leap_true (y : Z) :
  is_leap y = true ↔ y mod 4 = 0 ∧ (y mod 100 ≠ 0 ∨ y mod 400 = 0).
Proof.
  unfold is_leap. rewrite andb_true_iff, orb_true_iff, negb_true_iff.
  rewrite !Z.eqb_eq, Z.eqb_neq. tauto.
Qed.

(** The year of the era from the day of the era; a year of the era runs
    from March to February, so that a leap day is its last day. *)
Lemma year_of_era_roundtrip (yoe doy : Z) :
  0 <= yoe < 400 → 0 <= doy <= 365 →
  (doy = 365 →
   (yoe + 1) mod 4 = 0 ∧ ((yoe + 1) mod 100 ≠ 0 ∨ yoe + 1 = 400)) →
  let doe := yoe * 365 + yoe / 4 - yoe / 100 + doy in
  0 <= doe < 146097 ∧
  (doe - doe / 1460 + doe / 36524 - doe / 146096) / 365 = yoe.
Proof.
  intros Hy Hd Hl doe. subst doe. Z.div_mod_to_equations. lia.
Qed.

(** Month and day from the day of the year. *)
Lemma day_of_year_roundtrip (mp d : Z) :
  0 <= mp <= 11 → 1 <= d <= 31 →
  (mp = 1 ∨ mp = 3 ∨ mp = 6 ∨ mp = 8 → d <= 30) →
  (mp = 11 → d <= 29) →
  let doy := (153 * mp + 2) / 5 + d - 1 in
  (5 * doy + 2) / 153 = mp ∧ doy - (153 * mp + 2) / 5 + 1 = d ∧
  0 <= doy <= 365 ∧ (doy = 365 → mp = 11 ∧ d = 29).
Proof.
  intros Hmp Hd H30 H29 doy. subst doy.
  assert (mp = 0 ∨ mp = 1 ∨ mp = 2 ∨ mp = 3 ∨ mp = 4 ∨ mp = 5 ∨ mp = 6
          ∨ mp = 7 ∨ mp = 8 ∨ mp = 9 ∨ mp = 10 ∨ mp = 11) as Hc by lia.
  repeat (destruct Hc as [-> | Hc]); try subst mp;
    Z.div_mod_to_equations; lia.
Qed.

(** [civil_from_days] reads back the date that [days_from_civil] counted. *)
Lemma civil_from_days_from_civil (y m d : Z) :
  1 <= m <= 12 → 1 <= d <= days_in_month y m →
  civil_from_days (days_from_civil y m d) = (y, m, d).
Proof.
  intros Hm Hd.
  unfold days_from_civil, civil_from_days.
  set (y' := if m <=? 2 then y - 1 else y).
  set (era := y' / 400). set (yoe := y' - era * 400).
  set (mp := if 2 <? m then m - 3 else m + 9).
  set (doy := (153 * mp + 2) / 5 + d - 1).
  set (doe := yoe * 365 + yoe / 4 - yoe / 100 + doy).
  assert (0 <= yoe < 400) as Hyoe.
  { subst yoe era. Z.div_mod_to_equations. lia. }
  assert (0 <= mp <= 11 ∧ m = (if mp <? 10 then mp + 3 else mp - 9))
    as (Hmp & Hmm).
  { subst mp. destruct (Z.ltb_spec 2 m).
    - destruct (Z.ltb_spec (m - 3) 10); lia.
    - destruct (Z.ltb_spec (m + 9) 10); lia. }
  assert (1 <= d <= 31 ∧ (mp = 1 ∨ mp = 3 ∨ mp = 6 ∨ mp = 8 → d <= 30)
          ∧ (mp = 11 → d <= 29 ∧ (d = 29 → is_leap y = true)))
    as (Hd31 & Hd30 & Hd29).
  { unfold days_in_month in Hd. subst mp.
    destruct (Z.eqb_spec m 2) as [->|Hne2].
    - simpl. destruct (is_leap y); split_and!; intros; lia.
    - assert (m = 1 ∨ m = 3 ∨ m = 4 ∨ m = 5 ∨ m = 6 ∨ m = 7 ∨ m = 8
              ∨ m = 9 ∨ m = 10 ∨ m = 11 ∨ m = 12) as Hc by lia.
      repeat (destruct Hc as [-> | Hc]); try subst m; simpl in *; lia. }
  destruct (day_of_year_roundtrip mp d Hmp Hd31 Hd30 (fun H => proj1 (Hd29 H)))
    as (Hmp' & Hd' & Hdoy & Hdoy365).
  fold doy in Hmp', Hd', Hdoy, Hdoy365.
  destruct (year_of_era_roundtrip yoe doy Hyoe Hdoy) as (Hdoe & Hyoe').
  { intros H365. destruct (Hdoy365 H365) as [Hmp11 Hd29'].
    destruct (Hd29 Hmp11) as [_ Hleap]. specialize (Hleap Hd29').
    apply is_leap_true in Hleap.
    assert (m = 2) as Hm2.
    { subst mp. destruct (Z.ltb_spec 2 m); lia. }
    assert (y = era * 400 + yoe + 1) as Hy.
    { subst yoe y'. rewrite Hm2. simpl. lia. }
    rewrite Hy in Hleap. revert Hleap. clear -Hyoe.
    intros Hleap. Z.div_mod_to_equations. lia. }
  fold doe in Hdoe, Hyoe'.
  replace (era * 146097 + doe - 719468 + 719468) with (doe + era * 146097) by lia.
  assert ((doe + era * 146097) / 146097 = era) as ->.
  { rewrite Z.div_add by lia. rewrite Z.div_small by lia. lia. }
  replace (doe + era * 146097 - era * 146097) with doe by lia.
  rewrite Hyoe'.
  replace (doe - (365 * yoe + yoe / 4 - yoe / 100)) with doy by (subst doe; lia).
  rewrite Hmp', Hd', <- Hmm.
  f_equal. f_equal. subst yoe y'. destruct (Z.leb_spec m 2); lia.
Qed.

Lemma valid_date_spec (y m d : Z) :
  valid_date y m d = true →
  1 <= m <= 12 ∧ 1 <= d <= days_in_month y m.
Proof.
  unfold valid_date. rewrite !andb_true_iff, !Z.leb_le. lia.
Qed.

(** *** The timestamp column *)

(** The midnight that starts the day of row [r]. *)
Definition row_date (r : TsRow.t) : Z :=
  days_from_civil (TsRow.Year r) (TsRow.Month r) (TsRow.Day r) * 86400.

Definition row_is_date (r : TsRow.t) : Prop :=
  valid_date (TsRow.Year r) (TsRow.Month r) (TsRow.Day r) = true.

(** Every row of the table carries a calendar date. *)
Definition rows_are_dates (df : DataFrame.t) : Prop :=
  Forall row_is_date (DataFrame.rows df).

Definition period_max (df : DataFrame.t) : option Z :=
  series_max (map TsRow.Period (DataFrame.rows df)).

(** Timestamp [t] is the date of row [r] plus [Period - 1] hours; for a
    period from 1 to 24 it prints as that date at the hour [Period - 1]. *)
Definition hourly_timestamp (r : TsRow.t) (t : Z) : Prop :=
  t = row_date r + (TsRow.Period r - 1) * 3600 ∧
  (1 <= TsRow.Period r <= 24 →
   isoformat t = (TsRow.Year r, TsRow.Month r, TsRow.Day r,
                  (TsRow.Period r - 1, 0, 0))).

(** Timestamp [t] is the date of row [r] plus [(Period - 1) * 5] minutes;
    for a period from 1 to 288 it prints as that date at that minute of the
    day. *)
Definition five_minute_timestamp (r : TsRow.t) (t : Z) : Prop :=
  t = row_date r + (TsRow.Period r - 1) * 5 * 60 ∧
  (1 <= TsRow.Period r <= 288 →
   isoformat t = (TsRow.Year r, TsRow.Month r, TsRow.Day r,
                  ((TsRow.Period r - 1) * 5 / 60,
                   ((TsRow.Period r - 1) * 5) mod 60, 0))).

Lemma timestamp_column_dates (unit_s : Z) (count : TsRow.t → Z)
    (rows : list TsRow.t) :
  Forall row_is_date rows →
  timestamp_column unit_s count rows
  = Ok ((fun r => row_date r + count r * unit_s) <$> rows).
Proof.
  unfold timestamp_column. induction 1 as [|r rows Hr _ IH]; simpl; [done|].
  unfold to_datetime at 1. rewrite Hr. simpl. by rewrite IH.
Qed.

(** The time of day of a timestamp [off] seconds into a day. *)
Lemma isoformat_time_of_day (day off : Z) :
  0 <= off < 86400 →
  isoformat (day * 86400 + off)
  = (civil_from_days day, (off / 3600, (off mod 3600) / 60, off mod 60)).
Proof.
  intros Hoff. unfold isoformat.
  assert ((day * 86400 + off) / 86400 = day) as ->.
  { rewrite Z.add_comm, Z.div_add by lia. rewrite Z.div_small by lia. lia. }
  assert ((day * 86400 + off) mod 86400 = off) as ->.
  { rewrite Z.add_comm, Z.mod_add by lia. by apply Z.mod_small. }
  done.
Qed.

Lemma hourly_timestamp_intro (r : TsRow.t) :
  row_is_date r →
  hourly_timestamp r (row_date r + (TsRow.Period r - 1) * 3600).
Proof.
  intros Hr. split; [done|]. intros Hp. unfold row_date.
  rewrite isoformat_time_of_day by lia.
  apply valid_date_spec in Hr as [Hm Hd].
  rewrite civil_from_days_from_civil by done.
  do 2 f_equal; [f_equal|]; Z.div_mod_to_equations; lia.
Qed.

Lemma five_minute_timestamp_intro (r : TsRow.t) :
  row_is_date r →
  five_minute_timestamp r (row_date r + (TsRow.Period r - 1) * 5 * 60).
Proof.
  intros Hr. split; [done|]. intros Hp. unfold row_date.
  rewrite isoformat_time_of_day by lia.
  apply valid_date_spec in Hr as [Hm Hd].
  rewrite civil_from_days_from_civil by done.
  do 2 f_equal; [f_equal|]; Z.div_mod_to_equations; lia.
Qed.

Lemma fold_left_max_ge (l : list Z) (x : Z) :
  x <= fold_left Z.max l x ∧ ∀ y, y ∈ l → y <= fold_left Z.max l x.
Proof.
  revert x; induction l as [|z l IH]; intros x; simpl.
  - split; [lia|]. intros y Hy. by apply not_elem_of_nil in Hy.
  - destruct (IH (Z.max x z)) as [H1 H2]. split; [lia|].
    intros y Hy. apply elem_of_cons in Hy as [->|Hy]; [lia|by apply H2].
Qed.

(** No period of the table exceeds the maximum. *)
Lemma period_max_ge (df : DataFrame.t) (M : Z) (r : TsRow.t) :
  period_max df = Some M → r ∈ DataFrame.rows df → TsRow.Period r <= M.
Proof.
  unfold period_max. intros Hmax Hr.
  destruct (DataFrame.rows df) as [|r0 rows]; [discriminate|].
  simpl in Hmax. injection Hmax as <-.
  destruct (fold_left_max_ge (map TsRow.Period rows) (TsRow.Period r0))
    as [H0 Hle].
  apply elem_of_cons in Hr as [->|Hr]; [done|].
  apply Hle. apply list_elem_of_In, in_map, list_elem_of_In. done.
Qed.


(** One day of hourly data, and its first hours. *)
Definition hourly_day : DataFrame.t :=
  DataFrame.mk
    ((fun p => TsRow.mk 2020 1 1 p [(1775 # 1)%Q]) <$> seqZ 1 24) None.


Close Scope Z_scope.

(** ** The two numeric scenarios in binary64

    The embedding computes with exact rationals.  For the two scenarios of
    the specification that name concrete numbers, the same operations on
    IEEE binary64 values, as Python performs them, give the same numbers:
    no rounding error shows in [150 / 100] or in the scaled breakpoints. *)
Module Binary64.
Import PrimFloat.
#[local] Set Warnings "-inexact-float".

(** [xs] of [create_pwlcost_from_rts_data]: the first sample of the first
    [np.linspace], the last samples of the three, each times [pmax_mw]. *)
Definition xs (p0 p1 p2 p3 pmax_mw : float) : list float :=
  map (fun x => x * pmax_mw)%float
      [(0 * ((p1 - p0) / 1) + p0)%float; p1; p2; p3].

Lemma scenario_breakpoints :
  xs 0%float 0.3%float 0.6%float 1%float 100%float
  = [0%float; 30%float; 60%float; 100%float].
Proof. vm_compute. reflexivity. Qed.

Lemma scenario_cap_pu : (150 / 100)%float = 1.5%float.
Proof. vm_compute. reflexivity. Qed.
End Binary64.

(** * More of the network construction *)

(** ** Rows, in order *)

(** X1: The three lists of a returned [PSData] follow the three tables row by
    row: entry [i] carries the identifying and descriptive columns of row
    [i] (with the bus column [lng] under the key [lon]), and the three
    counters are the numbers of rows. *)
Theorem psdata_follows_the_tables (rtsdata : RTSDataSet.t) (ps : PSData.t) :
  create_ps_data_from_rts_data rtsdata = Ok ps →
  PSData.nbuses ps = length (RTSDataSet.bus rtsdata) ∧
  PSData.ngens ps = length (RTSDataSet.gen rtsdata) ∧
  PSData.nbranches ps = length (RTSDataSet.branch rtsdata) ∧
  Forall2 (fun row b =>
             Bus.id b = RtsBus.bus_id row ∧ Bus.type b = RtsBus.bus_type row ∧
             Bus.area b = RtsBus.area row ∧
             Bus.lat b = RtsBus.lat row ∧ Bus.lon b = RtsBus.lng row)
          (RTSDataSet.bus rtsdata) (PSData.busdata ps) ∧
  Forall2 (fun row g =>
             Gen.id g = RtsGen.gen_uid row ∧
             Gen.type g = RtsGen.unit_type row ∧
             Gen.fuel g = RtsGen.fuel row ∧
             Gen.min_down_time_hr g = RtsGen.min_down_time_hr row ∧
             Gen.min_up_time_hr g = RtsGen.min_up_time_hr row)
          (RTSDataSet.gen rtsdata) (PSData.gendata ps) ∧
  Forall2 (fun row br =>
             Branch.id br = RtsBranch.uid row ∧
             Branch.r_pu br = RtsBranch.r row ∧
             Branch.x_pu br = RtsBranch.x row ∧
             Branch.b_pu br = RtsBranch.b row)
          (RTSDataSet.branch rtsdata) (PSData.branchdata ps).
Proof.
  intros Hrun. apply create_ps_data_Ok in Hrun
    as (_ & Hbus & _ & _ & Hgen & Hbr & Hnb & Hng & Hnbr).
  split_and!; try done.
  - eapply Forall2_impl; [exact Hbus|]. intros row b (t & _ & _ & Hs).
    unfold static_fields in Hs. injection Hs as ? ? ? ? ? ? ?. by split_and!.
  - eapply Forall2_impl; [exact Hgen|].
    intros row g (pos & _ & _ & _ & ->). by split_and!.
  - eapply Forall2_impl; [exact Hbr|].
    intros row br (pf & pt & _ & _ & _ & _ & _ & ->). by split_and!.
Qed.

Lemma psdata_follows_the_tables_witness :
  PSData.nbuses example_ps = 3%nat ∧ PSData.ngens example_ps = 1%nat ∧
  PSData.nbranches example_ps = 1%nat.
Proof.
  destruct (psdata_follows_the_tables example_rts example_ps example_ps_created)
    as (H1 & H2 & H3 & _).
  split_and!; [exact H1|exact H2|exact H3].
Defined.

(** ** The bus index *)

(** A position that [busindexmap] gives holds a bus with the id asked for. *)
Lemma busindexmap_lookup_bus (rtsdata : RTSDataSet.t) (ps : PSData.t)
    (k : Z) (v : nat) :
  create_ps_data_from_rts_data rtsdata = Ok ps →
  PSData.busindexmap ps !! k = Some v →
  ∃ b, PSData.busdata ps !! v = Some b ∧ Bus.id b = k.
Proof.
  intros Hrun Hv. apply create_ps_data_Ok in Hrun as (_ & Hbus & _ & Hmap & _).
  apply Hmap in Hv as [(row & Hrow & Hk) _].
  destruct (Forall2_lookup_l _ _ _ _ _ Hbus Hrow) as (b & Hb & Hm).
  apply bus_made_fields in Hm as (t & _ & _ & Hi & _).
  exists b. split; [done|]. by rewrite Hi.
Qed.

(** X2: [busindexmap] sends each bus id of the table, and nothing else, to a
    position of [busdata] whose bus has that id: the last one, where an id
    occurs in several rows, and the position of the row itself where the ids
    are pairwise distinct. *)
Theorem busindexmap_round_trip (rtsdata : RTSDataSet.t) (ps : PSData.t) :
  create_ps_data_from_rts_data rtsdata = Ok ps →
  (∀ k, is_Some (PSData.busindexmap ps !! k)
        ↔ known_bus k (RTSDataSet.bus rtsdata)) ∧
  (∀ k v, PSData.busindexmap ps !! k = Some v →
     (∃ b, PSData.busdata ps !! v = Some b ∧ Bus.id b = k) ∧
     ∀ j b, PSData.busdata ps !! j = Some b → Bus.id b = k → (j ≤ v)%nat) ∧
  (∀ i b, PSData.busdata ps !! i = Some b →
     ∃ v, PSData.busindexmap ps !! Bus.id b = Some v ∧ (i ≤ v)%nat) ∧
  (NoDup (RtsBus.bus_id <$> RTSDataSet.bus rtsdata) →
   ∀ i b, PSData.busdata ps !! i = Some b →
          PSData.busindexmap ps !! Bus.id b = Some i).
Proof.
  intros Hrun. apply create_ps_data_Ok in Hrun as (_ & Hbus & _ & Hmap & _).
  set (buses := RTSDataSet.bus rtsdata) in *.
  assert (∀ i b, PSData.busdata ps !! i = Some b →
            ∃ row, buses !! i = Some row ∧ Bus.id b = RtsBus.bus_id row) as Hid.
  { intros i b Hb.
    destruct (Forall2_lookup_r _ _ _ _ _ Hbus Hb) as (row & Hrow & Hm).
    apply bus_made_fields in Hm as (t & _ & _ & Hi & _). eauto. }
  assert (∀ i row, buses !! i = Some row →
            ∃ b, PSData.busdata ps !! i = Some b ∧ Bus.id b = RtsBus.bus_id row)
    as Hid'.
  { intros i row Hrow.
    destruct (Forall2_lookup_l _ _ _ _ _ Hbus Hrow) as (b & Hb & Hm).
    apply bus_made_fields in Hm as (t & _ & _ & Hi & _). eauto. }
  assert (∀ i b, PSData.busdata ps !! i = Some b →
            ∃ v, PSData.busindexmap ps !! Bus.id b = Some v ∧ (i ≤ v)%nat) as Hlast.
  { intros i b Hb. destruct (Hid i b Hb) as (row & Hrow & Hi).
    destruct (last_where_exists (fun r => RtsBus.bus_id r = Bus.id b) buses)
      as (v & Hv).
    { exists row. split; [|done]. apply list_elem_of_lookup. eauto. }
    exists v. split; [by apply Hmap|].
    destruct Hv as [_ Hv]. destruct (decide (i ≤ v)%nat) as [|Hn]; [done|].
    exfalso. apply (Hv i row); [lia|done|done]. }
  split_and!.
  - intros k. split.
    + intros [v Hv]. apply Hmap in Hv. by apply last_where_elem in Hv.
    + intros Hk.
      destruct (last_where_exists (fun r => RtsBus.bus_id r = k) buses Hk)
        as (v & Hv).
      exists v. by apply Hmap.
  - intros k v Hv. apply Hmap in Hv as [(row & Hrow & Hk) Hlater]. split.
    + destruct (Hid' v row Hrow) as (b & Hb & Hi). exists b. by rewrite Hi.
    + intros j b Hb Hbk. destruct (Hid j b Hb) as (row' & Hrow' & Hi').
      destruct (decide (j ≤ v)%nat) as [|Hn]; [done|].
      exfalso. apply (Hlater j row'); [lia|done|congruence].
  - exact Hlast.
  - intros Hnd i b Hb. destruct (Hlast i b Hb) as (v & Hv & Hle).
    destruct (Hid i b Hb) as (row & Hrow & Hi).
    pose proof Hv as Hv'.
    apply Hmap in Hv' as [(row' & Hrow' & Hk) _].
    assert (i = v) as ->; [|done].
    apply (NoDup_lookup _ i v (Bus.id b) Hnd).
    + by rewrite list_lookup_fmap, Hrow, Hi.
    + rewrite list_lookup_fmap, Hrow'. simpl. by rewrite Hk.
Qed.

Lemma busindexmap_round_trip_witness :
  NoDup (RtsBus.bus_id <$> RTSDataSet.bus example_rts) ∧
  ∀ i b, PSData.busdata example_ps !! i = Some b →
         PSData.busindexmap example_ps !! Bus.id b = Some i.
Proof.
  assert (NoDup (RtsBus.bus_id <$> RTSDataSet.bus example_rts)) as Hnd.
  { apply (bool_decide_unpack _). by vm_compute. }
  split; [exact Hnd|].
  exact (proj2 (proj2 (proj2 (busindexmap_round_trip example_rts example_ps
                                example_ps_created))) Hnd).
Defined.

(** ** One step of the generator and branch loops, read backwards *)

Lemma gen_step_Ok (busindexmap : gmap Z nat) (basemva : Q) (st st' : gen_state)
    (i : nat) (gen : RtsGen.t) :
  gen_step busindexmap basemva st (i, gen) = Ok st' →
  ∃ pos v,
    busindexmap !! RtsGen.bus_id gen = Some pos ∧
    gs_busdata st !! pos = Some v ∧ ¬ basemva == 0 ∧
    st' = mk_gen_state
            (<[pos := Bus.append_gen i v]> (gs_busdata st))
            (<[RtsGen.gen_uid gen := i]> (gs_genindexmap st))
            (gs_gendata st
               ++ [Gen.mk (RtsGen.gen_uid gen) (RtsGen.unit_type gen)
                     (RtsGen.fuel gen) pos (RtsGen.min_down_time_hr gen)
                     (RtsGen.min_up_time_hr gen)
                     (RtsGen.pmax_mw gen) (RtsGen.pmax_mw gen / basemva)
                     (RtsGen.pmin_mw gen) (RtsGen.pmin_mw gen / basemva)
                     (RtsGen.ramp_rate_mw_per_min gen)
                     (RtsGen.ramp_rate_mw_per_min gen / basemva)]).
Proof.
  intros Hstep. unfold gen_step, getitem in Hstep.
  destruct (busindexmap !! RtsGen.bus_id gen) as [pos|] eqn:Hpos;
    [|discriminate].
  simpl in Hstep.
  inv_bind Hstep. apply pydiv_Ok in E as [Hnz ->].
  inv_bind Hstep. apply pydiv_Ok in E as [_ ->].
  inv_bind Hstep. apply pydiv_Ok in E as [_ ->].
  inv_bind Hstep. injection Hstep as <-.
  apply list_modify_Ok in E as (w & Hw & ->).
  by exists pos, w.
Qed.

Lemma branch_step_Ok (busindexmap : gmap Z nat) (basemva : Q)
    (st st' : branch_state) (i : nat) (branch : RtsBranch.t) :
  branch_step busindexmap basemva st (i, branch) = Ok st' →
  ∃ pf pt vf vt,
    busindexmap !! RtsBranch.from_bus branch = Some pf ∧
    busindexmap !! RtsBranch.to_bus branch = Some pt ∧
    bs_busdata st !! pf = Some vf ∧
    <[pf := Bus.append_branch_out i vf]> (bs_busdata st) !! pt = Some vt ∧
    ¬ basemva == 0 ∧
    st' = mk_branch_state
            (<[pt := Bus.append_branch_in i vt]>
               (<[pf := Bus.append_branch_out i vf]> (bs_busdata st)))
            (<[RtsBranch.uid branch := i]> (bs_branchindexmap st))
            (bs_branchdata st
               ++ [Branch.mk (RtsBranch.uid branch) pf pt
                     (RtsBranch.r branch) (RtsBranch.x branch)
                     (RtsBranch.b branch)
                     (RtsBranch.cont_rating branch)
                     (RtsBranch.cont_rating branch / basemva)
                     (RtsBranch.ste_rating branch)
                     (RtsBranch.ste_rating branch / basemva)]).
Proof.
  intros Hstep. unfold branch_step, getitem in Hstep.
  destruct (busindexmap !! RtsBranch.from_bus branch) as [pf|] eqn:Hpf;
    [|discriminate].
  destruct (busindexmap !! RtsBranch.to_bus branch) as [pt|] eqn:Hpt;
    [|discriminate].
  simpl in Hstep.
  inv_bind Hstep. apply pydiv_Ok in E as [Hnz ->].
  inv_bind Hstep. apply pydiv_Ok in E as [_ ->].
  inv_bind Hstep. inv_bind Hstep. injection Hstep as <-.
  apply list_modify_Ok in E as (wf & Hwf & ->).
  apply list_modify_Ok in E0 as (wt & Hwt & ->).
  by exists pf, pt, wf, wt.
Qed.

(** ** Positions with a property *)

(** The positions of the elements of [l] that satisfy [f], in increasing
    order. *)
Definition positions {A : Type} (f : A → bool) (l : list A) : list nat :=
  fst <$> List.filter (fun ix => f ix.2) (enumerate l).

Lemma positions_snoc {A : Type} (f : A → bool) (l : list A) (x : A) :
  positions f (l ++ [x])
  = positions f l ++ (if f x then [length l] else []).
Proof.
  unfold positions, enumerate. rewrite enumerate_from_app, List.filter_app, fmap_app.
  f_equal. simpl. by destruct (f x).
Qed.

Lemma elem_of_positions {A : Type} (f : A → bool) (l : list A) (i : nat) :
  i ∈ positions f l ↔ ∃ x, l !! i = Some x ∧ f x = true.
Proof.
  induction l as [|y l IH] using rev_ind.
  - split; [intros H; by apply not_elem_of_nil in H|].
    intros (x & Hx & _). by rewrite lookup_nil in Hx.
  - rewrite positions_snoc, elem_of_app, IH. split.
    + intros [(x & Hx & Hf) | Hi].
      * exists x. split; [|done]. rewrite lookup_app_l; [done|].
        by apply lookup_lt_Some in Hx.
      * destruct (f y) eqn:Hy; [|by apply not_elem_of_nil in Hi].
        apply list_elem_of_singleton in Hi as ->. exists y.
        by rewrite list_lookup_middle.
    + intros (x & Hx & Hf).
      destruct (decide (i < length l)%nat) as [Hlt|Hge].
      * left. exists x. by rewrite lookup_app_l in Hx.
      * assert (i = length l) as ->.
        { apply lookup_lt_Some in Hx. rewrite length_app in Hx. simpl in Hx. lia. }
        rewrite list_lookup_middle in Hx by done. injection Hx as ->.
        right. rewrite Hf. by apply list_elem_of_singleton.
Qed.

Lemma positions_increasing {A : Type} (f : A → bool) (l : list A) :
  StronglySorted lt (positions f l).
Proof.
  induction l as [|y l IH] using rev_ind; [constructor|].
  rewrite positions_snoc. destruct (f y).
  - apply StronglySorted_app_2; [|done|repeat constructor].
    intros i j Hi Hj. apply list_elem_of_singleton in Hj as ->.
    apply elem_of_positions in Hi as (x & Hx & _). by apply lookup_lt_Some in Hx.
  - by rewrite app_nil_r.
Qed.

(** ** The three lists of a bus *)

(** The lists [gens], [branches_out] and [branches_in] of the bus at every
    position [p] of [busdata] are [G p], [O p] and [I p]. *)
Definition lists_are (busdata : list Bus.t) (G O I : nat → list nat) : Prop :=
  ∀ p b, busdata !! p = Some b →
    Bus.gens b = G p ∧ Bus.branches_out b = O p ∧ Bus.branches_in b = I p.

Lemma lists_are_ext (busdata : list Bus.t) (G O I G' O' I' : nat → list nat) :
  (∀ p, G p = G' p) → (∀ p, O p = O' p) → (∀ p, I p = I' p) →
  lists_are busdata G O I → lists_are busdata G' O' I'.
Proof.
  intros HG HO HI H p b Hb. destruct (H p b Hb) as (? & ? & ?).
  rewrite <- HG, <- HO, <- HI. done.
Qed.

(** What one more index [i] at position [pos] adds to the list of [p]. *)
Definition one_more (pos i p : nat) : list nat :=
  if Nat.eqb pos p then [i] else [].

Lemma lists_are_append_gen (busdata : list Bus.t) (G O I : nat → list nat)
    (pos i : nat) (v : Bus.t) :
  lists_are busdata G O I → busdata !! pos = Some v →
  lists_are (<[pos := Bus.append_gen i v]> busdata)
            (fun p => G p ++ one_more pos i p) O I.
Proof.
  intros H Hv p b Hb. unfold one_more.
  apply list_lookup_insert_Some in Hb as [(-> & <- & _) | (Hne & Hb)].
  - destruct (H p v Hv) as (HG & HO & HI). rewrite Nat.eqb_refl. simpl.
    by rewrite HG.
  - destruct (H p b Hb) as (HG & HO & HI).
    apply Nat.eqb_neq in Hne. rewrite Hne, app_nil_r. done.
Qed.

Lemma lists_are_append_branch_out (busdata : list Bus.t)
    (G O I : nat → list nat) (pos i : nat) (v : Bus.t) :
  lists_are busdata G O I → busdata !! pos = Some v →
  lists_are (<[pos := Bus.append_branch_out i v]> busdata)
            G (fun p => O p ++ one_more pos i p) I.
Proof.
  intros H Hv p b Hb. unfold one_more.
  apply list_lookup_insert_Some in Hb as [(-> & <- & _) | (Hne & Hb)].
  - destruct (H p v Hv) as (HG & HO & HI). rewrite Nat.eqb_refl. simpl.
    by rewrite HO.
  - destruct (H p b Hb) as (HG & HO & HI).
    apply Nat.eqb_neq in Hne. rewrite Hne, app_nil_r. done.
Qed.

Lemma lists_are_append_branch_in (busdata : list Bus.t)
    (G O I : nat → list nat) (pos i : nat) (v : Bus.t) :
  lists_are busdata G O I → busdata !! pos = Some v →
  lists_are (<[pos := Bus.append_branch_in i v]> busdata)
            G O (fun p => I p ++ one_more pos i p).
Proof.
  intros H Hv p b Hb. unfold one_more.
  apply list_lookup_insert_Some in Hb as [(-> & <- & _) | (Hne & Hb)].
  - destruct (H p v Hv) as (HG & HO & HI). rewrite Nat.eqb_refl. simpl.
    by rewrite HI.
  - destruct (H p b Hb) as (HG & HO & HI).
    apply Nat.eqb_neq in Hne. rewrite Hne, app_nil_r. done.
Qed.

Definition gens_at (gendata : list Gen.t) (p : nat) : list nat :=
  positions (fun g => Nat.eqb (Gen.bus g) p) gendata.

Definition branches_from (branchdata : list Branch.t) (p : nat) : list nat :=
  positions (fun br => Nat.eqb (Branch.from_bus br) p) branchdata.

Definition branches_to (branchdata : list Branch.t) (p : nat) : list nat :=
  positions (fun br => Nat.eqb (Branch.to_bus br) p) branchdata.

(** The bus loop leaves the three lists of every bus empty. *)
Lemma bus_loop_lists (area_load : gmap Z Q) (buses : list RtsBus.t)
    (st : bus_state) :
  for_each (bus_step area_load) (enumerate buses) (mk_bus_state None ∅ []) = Ok st →
  lists_are (st_busdata st) (fun _ => []) (fun _ => []) (fun _ => []).
Proof.
  apply (for_each_enumerate_inv _
           (fun _ st => lists_are (st_busdata st)
                          (fun _ => []) (fun _ => []) (fun _ => []))).
  - intros p b Hb. simpl in Hb. by rewrite lookup_nil in Hb.
  - intros pre x suf s s' _ Hs Hstep.
    apply bus_step_Ok in Hstep as (t & _ & _ & ->). simpl.
    intros p b Hb. apply lookup_app_Some in Hb as [Hb | (_ & Hb)].
    + by apply Hs in Hb.
    + apply list_lookup_singleton_Some in Hb as [_ <-]. done.
Qed.

(** The invariant of the generator loop on the lists and on [genindexmap]. *)
Definition gen_link_inv (pre : list RtsGen.t) (st : gen_state) : Prop :=
  length (gs_gendata st) = length pre ∧
  (∀ k v, gs_genindexmap st !! k = Some v
          ↔ last_where (fun g => RtsGen.gen_uid g = k) pre v) ∧
  lists_are (gs_busdata st) (gens_at (gs_gendata st)) (fun _ => []) (fun _ => []).

Lemma gen_step_link_inv (busindexmap : gmap Z nat) (basemva : Q)
    (pre : list RtsGen.t) (gen : RtsGen.t) (st st' : gen_state) :
  gen_link_inv pre st →
  gen_step busindexmap basemva st (length pre, gen) = Ok st' →
  gen_link_inv (pre ++ [gen]) st'.
Proof.
  intros (Hlen & Hmap & Hlists) Hstep.
  apply gen_step_Ok in Hstep as (pos & w & Hpos & Hw & _ & ->).
  split_and!; simpl.
  - rewrite !length_app. simpl. lia.
  - intros k v. destruct (decide (RtsGen.gen_uid gen = k)) as [<-|Hne].
    + rewrite lookup_insert_eq, last_where_snoc_yes by done.
      split; [by intros [= <-] | by intros ->].
    + rewrite lookup_insert_ne, last_where_snoc_no by done. apply Hmap.
  - eapply lists_are_ext; [| | |by apply lists_are_append_gen]; try done.
    intros p. unfold gens_at, one_more. rewrite positions_snoc. simpl.
    by rewrite Hlen.
Qed.

(** The invariant of the branch loop on the lists and on [branchindexmap]. *)
Definition branch_link_inv (gendata : list Gen.t) (pre : list RtsBranch.t)
    (st : branch_state) : Prop :=
  length (bs_branchdata st) = length pre ∧
  (∀ k v, bs_branchindexmap st !! k = Some v
          ↔ last_where (fun br => RtsBranch.uid br = k) pre v) ∧
  lists_are (bs_busdata st) (gens_at gendata)
            (branches_from (bs_branchdata st)) (branches_to (bs_branchdata st)).

Lemma branch_step_link_inv (busindexmap : gmap Z nat) (basemva : Q)
    (gendata : list Gen.t) (pre : list RtsBranch.t) (branch : RtsBranch.t)
    (st st' : branch_state) :
  branch_link_inv gendata pre st →
  branch_step busindexmap basemva st (length pre, branch) = Ok st' →
  branch_link_inv gendata (pre ++ [branch]) st'.
Proof.
  intros (Hlen & Hmap & Hlists) Hstep.
  apply branch_step_Ok in Hstep
    as (pf & pt & wf & wt & Hpf & Hpt & Hwf & Hwt & _ & ->).
  split_and!; simpl.
  - rewrite !length_app. simpl. lia.
  - intros k v. destruct (decide (RtsBranch.uid branch = k)) as [<-|Hne].
    + rewrite lookup_insert_eq, last_where_snoc_yes by done.
      split; [by intros [= <-] | by intros ->].
    + rewrite lookup_insert_ne, last_where_snoc_no by done. apply Hmap.
  - eapply lists_are_ext;
      [| | |apply lists_are_append_branch_in;
            [apply lists_are_append_branch_out; [exact Hlists|exact Hwf]
            |exact Hwt]]; try done.
    + intros p. unfold branches_from, one_more. rewrite positions_snoc. simpl.
      by rewrite Hlen.
    + intros p. unfold branches_to, one_more. rewrite positions_snoc. simpl.
      by rewrite Hlen.
Qed.

(** The lists and the two other index maps of a returned [PSData]. *)
Lemma create_ps_data_links (rtsdata : RTSDataSet.t) (ps : PSData.t) :
  create_ps_data_from_rts_data rtsdata = Ok ps →
  lists_are (PSData.busdata ps) (gens_at (PSData.gendata ps))
            (branches_from (PSData.branchdata ps))
            (branches_to (PSData.branchdata ps)) ∧
  (∀ k v, PSData.genindexmap ps !! k = Some v
          ↔ last_where (fun g => RtsGen.gen_uid g = k)
                       (RTSDataSet.gen rtsdata) v) ∧
  (∀ k v, PSData.branchindexmap ps !! k = Some v
          ↔ last_where (fun br => RtsBranch.uid br = k)
                       (RTSDataSet.branch rtsdata) v).
Proof.
  intros Hrun. unfold create_ps_data_from_rts_data in Hrun.
  inv_bind Hrun. rename v into st, E into Hbus.
  inv_bind Hrun. rename v into gs, E into Hgen.
  inv_bind Hrun. rename v into bs, E into Hbranch.
  injection Hrun as <-. simpl.
  apply bus_loop_lists in Hbus.
  apply (for_each_enumerate_inv _ gen_link_inv) in Hgen.
  - destruct Hgen as (_ & Hgmap & Hglists).
    apply (for_each_enumerate_inv _ (branch_link_inv (gs_gendata gs))) in Hbranch.
    + destruct Hbranch as (_ & Hbmap & Hblists). done.
    + split_and!; simpl; [done| |done].
      intros k v. rewrite lookup_empty. split; [done|].
      intros H. by apply last_where_nil in H.
    + intros. by eapply branch_step_link_inv.
  - split_and!; simpl; [done| |done].
    intros k v. rewrite lookup_empty. split; [done|].
    intros H. by apply last_where_nil in H.
  - intros. by eapply gen_step_link_inv.
Qed.

(** The example network is returned with its generator listed at the
    reference bus and its branch at its two ends. *)
Example example_ps_lists :
  (fun b => (Bus.gens b, Bus.branches_out b, Bus.branches_in b))
    <$> PSData.busdata example_ps
  = [([], [0%nat], []); ([0%nat], [], []); ([], [], [0%nat])].
Proof. by vm_compute. Qed.

Lemma elem_of_gens_at (gendata : list Gen.t) (p i : nat) :
  i ∈ gens_at gendata p ↔ ∃ g, gendata !! i = Some g ∧ Gen.bus g = p.
Proof.
  unfold gens_at. rewrite elem_of_positions.
  split; intros (g & Hg & Hp); exists g; split; try done; by apply Nat.eqb_eq.
Qed.

Lemma elem_of_branches_from (branchdata : list Branch.t) (p i : nat) :
  i ∈ branches_from branchdata p
  ↔ ∃ br, branchdata !! i = Some br ∧ Branch.from_bus br = p.
Proof.
  unfold branches_from. rewrite elem_of_positions.
  split; intros (g & Hg & Hp); exists g; split; try done; by apply Nat.eqb_eq.
Qed.

Lemma elem_of_branches_to (branchdata : list Branch.t) (p i : nat) :
  i ∈ branches_to branchdata p
  ↔ ∃ br, branchdata !! i = Some br ∧ Branch.to_bus br = p.
Proof.
  unfold branches_to. rewrite elem_of_positions.
  split; intros (g & Hg & Hp); exists g; split; try done; by apply Nat.eqb_eq.
Qed.

(** X3: In a returned [PSData] the lists of the bus at position [p] are the
    incidence of the network: [gens] holds exactly the positions of the
    generators whose [bus] is [p], [branches_out] those of the branches
    whose [from_bus] is [p] and [branches_in] those of the branches whose
    [to_bus] is [p], each in increasing order and so without repetition. *)
Theorem bus_lists_are_the_incidence (rtsdata : RTSDataSet.t) (ps : PSData.t)
    (p : nat) (b : Bus.t) :
  create_ps_data_from_rts_data rtsdata = Ok ps →
  PSData.busdata ps !! p = Some b →
  (∀ i, i ∈ Bus.gens b
        ↔ ∃ g, PSData.gendata ps !! i = Some g ∧ Gen.bus g = p) ∧
  (∀ i, i ∈ Bus.branches_out b
        ↔ ∃ br, PSData.branchdata ps !! i = Some br ∧ Branch.from_bus br = p) ∧
  (∀ i, i ∈ Bus.branches_in b
        ↔ ∃ br, PSData.branchdata ps !! i = Some br ∧ Branch.to_bus br = p) ∧
  StronglySorted lt (Bus.gens b) ∧
  StronglySorted lt (Bus.branches_out b) ∧
  StronglySorted lt (Bus.branches_in b).
Proof.
  intros Hrun Hb. apply create_ps_data_links in Hrun as (Hlists & _).
  destruct (Hlists p b Hb) as (-> & -> & ->).
  split_and!; try apply positions_increasing.
  - apply elem_of_gens_at.
  - apply elem_of_branches_from.
  - apply elem_of_branches_to.
Qed.

Lemma bus_lists_are_the_incidence_witness :
  ∃ b, PSData.busdata example_ps !! 1%nat = Some b ∧
       ∀ i, i ∈ Bus.gens b
            ↔ ∃ g, PSData.gendata example_ps !! i = Some g ∧ Gen.bus g = 1%nat.
Proof.
  destruct (PSData.busdata example_ps !! 1%nat) as [b|] eqn:E;
    [|by vm_compute in E].
  exists b. split; [done|].
  exact (proj1 (bus_lists_are_the_incidence example_rts example_ps 1 b
                  example_ps_created E)).
Defined.

(** X4: Every generator of a returned [PSData] sits at the bus that carries its
    bus id: [bus] is what [busindexmap] gives for the [bus_id] of its row,
    the bus at that position has that id, and that bus, and no other, lists
    the generator. *)
Theorem generator_sits_at_its_bus (rtsdata : RTSDataSet.t) (ps : PSData.t)
    (i : nat) (g : Gen.t) :
  create_ps_data_from_rts_data rtsdata = Ok ps →
  PSData.gendata ps !! i = Some g →
  ∃ row b,
    RTSDataSet.gen rtsdata !! i = Some row ∧
    PSData.busindexmap ps !! RtsGen.bus_id row = Some (Gen.bus g) ∧
    PSData.busdata ps !! Gen.bus g = Some b ∧
    Bus.id b = RtsGen.bus_id row ∧
    i ∈ Bus.gens b ∧
    ∀ p b', PSData.busdata ps !! p = Some b' → i ∈ Bus.gens b' → p = Gen.bus g.
Proof.
  intros Hrun Hg.
  pose proof (create_ps_data_Ok _ _ Hrun) as (_ & _ & _ & _ & Hgen & _).
  pose proof (create_ps_data_links _ _ Hrun) as (Hlists & _).
  destruct (Forall2_lookup_r _ _ _ _ _ Hgen Hg)
    as (row & Hrow & pos & Hpos & _ & _ & Hgeq).
  assert (Gen.bus g = pos) as Hbus by (by rewrite Hgeq).
  destruct (busindexmap_lookup_bus _ _ _ _ Hrun Hpos) as (b & Hb & Hid).
  exists row, b. rewrite Hbus. split_and!; try done.
  - destruct (Hlists pos b Hb) as (-> & _). apply elem_of_gens_at. eauto.
  - intros p b' Hb' Hi. destruct (Hlists p b' Hb') as (HG & _).
    rewrite HG in Hi. apply elem_of_gens_at in Hi as (g' & Hg' & Hp).
    congruence.
Qed.

Lemma generator_sits_at_its_bus_witness :
  ∃ g b, PSData.gendata example_ps !! 0%nat = Some g ∧
         PSData.busdata example_ps !! Gen.bus g = Some b ∧
         Bus.id b = 102%Z ∧ 0%nat ∈ Bus.gens b.
Proof.
  destruct (PSData.gendata example_ps !! 0%nat) as [g|] eqn:E;
    [|by vm_compute in E].
  destruct (generator_sits_at_its_bus example_rts example_ps 0 g
              example_ps_created E)
    as (row & b & Hrow & _ & Hb & Hid & Hin & _).
  injection Hrow as <-. by exists g, b.
Defined.

(** X5: Every branch of a returned [PSData] joins the buses that carry its two
    bus ids: [from_bus] and [to_bus] are what [busindexmap] gives for the
    ids of its row, the buses there have those ids, the branch is in
    [branches_out] of the first and in [branches_in] of the second, and in
    those lists of no other bus. *)
Theorem branch_joins_its_buses (rtsdata : RTSDataSet.t) (ps : PSData.t)
    (i : nat) (br : Branch.t) :
  create_ps_data_from_rts_data rtsdata = Ok ps →
  PSData.branchdata ps !! i = Some br →
  ∃ row bf bt,
    RTSDataSet.branch rtsdata !! i = Some row ∧
    PSData.busindexmap ps !! RtsBranch.from_bus row = Some (Branch.from_bus br) ∧
    PSData.busindexmap ps !! RtsBranch.to_bus row = Some (Branch.to_bus br) ∧
    PSData.busdata ps !! Branch.from_bus br = Some bf ∧
    PSData.busdata ps !! Branch.to_bus br = Some bt ∧
    Bus.id bf = RtsBranch.from_bus row ∧ Bus.id bt = RtsBranch.to_bus row ∧
    i ∈ Bus.branches_out bf ∧ i ∈ Bus.branches_in bt ∧
    ∀ p b', PSData.busdata ps !! p = Some b' →
      (i ∈ Bus.branches_out b' → p = Branch.from_bus br) ∧
      (i ∈ Bus.branches_in b' → p = Branch.to_bus br).
Proof.
  intros Hrun Hbr.
  pose proof (create_ps_data_Ok _ _ Hrun) as (_ & _ & _ & _ & _ & Hbrs & _).
  pose proof (create_ps_data_links _ _ Hrun) as (Hlists & _).
  destruct (Forall2_lookup_r _ _ _ _ _ Hbrs Hbr)
    as (row & Hrow & pf & pt & Hpf & Hpt & _ & _ & _ & Heq).
  assert (Branch.from_bus br = pf) as Hf by (by rewrite Heq).
  assert (Branch.to_bus br = pt) as Ht by (by rewrite Heq).
  destruct (busindexmap_lookup_bus _ _ _ _ Hrun Hpf) as (bf & Hbf & Hidf).
  destruct (busindexmap_lookup_bus _ _ _ _ Hrun Hpt) as (bt & Hbt & Hidt).
  exists row, bf, bt. rewrite Hf, Ht. split_and!; try done.
  - destruct (Hlists pf bf Hbf) as (_ & -> & _).
    apply elem_of_branches_from. eauto.
  - destruct (Hlists pt bt Hbt) as (_ & _ & ->).
    apply elem_of_branches_to. eauto.
  - intros p b' Hb'. destruct (Hlists p b' Hb') as (_ & HO & HI).
    rewrite HO, HI. split; intros Hi.
    + apply elem_of_branches_from in Hi as (br' & Hbr' & Hp). congruence.
    + apply elem_of_branches_to in Hi as (br' & Hbr' & Hp). congruence.
Qed.

Lemma branch_joins_its_buses_witness :
  ∃ br bf bt, PSData.branchdata example_ps !! 0%nat = Some br ∧
    PSData.busdata example_ps !! Branch.from_bus br = Some bf ∧
    PSData.busdata example_ps !! Branch.to_bus br = Some bt ∧
    Bus.id bf = 101%Z ∧ Bus.id bt = 103%Z.
Proof.
  destruct (PSData.branchdata example_ps !! 0%nat) as [br|] eqn:E;
    [|by vm_compute in E].
  destruct (branch_joins_its_buses example_rts example_ps 0 br
              example_ps_created E)
    as (row & bf & bt & Hrow & _ & _ & Hbf & Hbt & Hidf & Hidt & _).
  injection Hrow as <-. by exists br, bf, bt.
Defined.

(** ** The generator and branch indices *)

(** A map that sends each key to the last row with that key, read against
    the list made of the rows. *)
Lemma index_round_trip `{Countable K} {Row Out : Type} (key : Row → K)
    (id : Out → K) (rows : list Row) (outs : list Out) (m : gmap K nat) :
  Forall2 (fun r o => id o = key r) rows outs →
  (∀ k v, m !! k = Some v ↔ last_where (fun r => key r = k) rows v) →
  (∀ k v, m !! k = Some v →
     (∃ o, outs !! v = Some o ∧ id o = k) ∧
     ∀ j o, outs !! j = Some o → id o = k → (j ≤ v)%nat) ∧
  (∀ i o, outs !! i = Some o → ∃ v, m !! id o = Some v ∧ (i ≤ v)%nat) ∧
  (NoDup (key <$> rows) → ∀ i o, outs !! i = Some o → m !! id o = Some i).
Proof.
  intros HF Hmap.
  assert (∀ i o, outs !! i = Some o → ∃ v, m !! id o = Some v ∧ (i ≤ v)%nat)
    as Hlast.
  { intros i o Ho.
    destruct (Forall2_lookup_r _ _ _ _ _ HF Ho) as (row & Hrow & Hi).
    destruct (last_where_exists (fun r => key r = id o) rows) as (v & Hv).
    { exists row. split; [|done]. apply list_elem_of_lookup. eauto. }
    exists v. split; [by apply Hmap|].
    destruct Hv as [_ Hv]. destruct (decide (i ≤ v)%nat) as [|Hn]; [done|].
    exfalso. apply (Hv i row); [lia|done|done]. }
  split_and!.
  - intros k v Hv. apply Hmap in Hv as [(row & Hrow & Hk) Hlater]. split.
    + destruct (Forall2_lookup_l _ _ _ _ _ HF Hrow) as (o & Ho & Hi).
      exists o. split; [done|]. by rewrite Hi.
    + intros j o Ho Hok.
      destruct (Forall2_lookup_r _ _ _ _ _ HF Ho) as (row' & Hrow' & Hi').
      destruct (decide (j ≤ v)%nat) as [|Hn]; [done|].
      exfalso. apply (Hlater j row'); [lia|done|congruence].
  - exact Hlast.
  - intros Hnd i o Ho. destruct (Hlast i o Ho) as (v & Hv & Hle).
    destruct (Forall2_lookup_r _ _ _ _ _ HF Ho) as (row & Hrow & Hi).
    pose proof Hv as Hv'. apply Hmap in Hv' as [(row' & Hrow' & Hk) _].
    assert (i = v) as ->; [|done].
    apply (NoDup_lookup _ i v (id o) Hnd).
    + by rewrite list_lookup_fmap, Hrow, Hi.
    + rewrite list_lookup_fmap, Hrow'. simpl. by rewrite Hk.
Qed.

(** X6: [genindexmap] and [branchindexmap] send each uid of their table to a
    position of [gendata], or [branchdata], whose entry has that uid: the
    last one where a uid occurs in several rows, and the position of the row
    itself where the uids are pairwise distinct. *)
Theorem uid_index_round_trip (rtsdata : RTSDataSet.t) (ps : PSData.t) :
  create_ps_data_from_rts_data rtsdata = Ok ps →
  ((∀ k v, PSData.genindexmap ps !! k = Some v →
      (∃ g, PSData.gendata ps !! v = Some g ∧ Gen.id g = k) ∧
      ∀ j g, PSData.gendata ps !! j = Some g → Gen.id g = k → (j ≤ v)%nat) ∧
   (∀ i g, PSData.gendata ps !! i = Some g →
      ∃ v, PSData.genindexmap ps !! Gen.id g = Some v ∧ (i ≤ v)%nat) ∧
   (NoDup (RtsGen.gen_uid <$> RTSDataSet.gen rtsdata) →
    ∀ i g, PSData.gendata ps !! i = Some g →
           PSData.genindexmap ps !! Gen.id g = Some i)) ∧
  ((∀ k v, PSData.branchindexmap ps !! k = Some v →
      (∃ br, PSData.branchdata ps !! v = Some br ∧ Branch.id br = k) ∧
      ∀ j br, PSData.branchdata ps !! j = Some br → Branch.id br = k →
              (j ≤ v)%nat) ∧
   (∀ i br, PSData.branchdata ps !! i = Some br →
      ∃ v, PSData.branchindexmap ps !! Branch.id br = Some v ∧ (i ≤ v)%nat) ∧
   (NoDup (RtsBranch.uid <$> RTSDataSet.branch rtsdata) →
    ∀ i br, PSData.branchdata ps !! i = Some br →
            PSData.branchindexmap ps !! Branch.id br = Some i)).
Proof.
  intros Hrun.
  pose proof (create_ps_data_Ok _ _ Hrun) as (_ & _ & _ & _ & Hgen & Hbr & _).
  pose proof (create_ps_data_links _ _ Hrun) as (_ & Hgmap & Hbmap).
  split.
  - apply (index_round_trip RtsGen.gen_uid Gen.id (RTSDataSet.gen rtsdata));
      [|done].
    eapply Forall2_impl; [exact Hgen|].
    by intros row g (pos & _ & _ & _ & ->).
  - apply (index_round_trip RtsBranch.uid Branch.id (RTSDataSet.branch rtsdata));
      [|done].
    eapply Forall2_impl; [exact Hbr|].
    by intros row br (pf & pt & _ & _ & _ & _ & _ & ->).
Qed.

(** Two generators under one uid, at the example's reference bus. *)
Definition twin_uid_rts : RTSDataSet.t :=
  RTSDataSet.mk (RTSDataSet.bus example_rts)
    [scenario_gen "102_CT_1" "CT" "NG" 102 1 1 20 3;
     scenario_gen "102_CT_1" "CT" "NG" 102 1 1 25 4]
    (RTSDataSet.branch example_rts) 100.

Lemma uid_index_round_trip_witness :
  ∃ ps, create_ps_data_from_rts_data twin_uid_rts = Ok ps ∧
        PSData.genindexmap ps !! "102_CT_1" = Some 1%nat ∧
        ∃ g, PSData.gendata ps !! 1%nat = Some g ∧ Gen.id g = "102_CT_1".
Proof.
  destruct (create_ps_data_from_rts_data twin_uid_rts) as [ps|e] eqn:E;
    [|by vm_compute in E].
  exists ps. split; [done|].
  assert (PSData.genindexmap ps !! "102_CT_1" = Some 1%nat) as Hk.
  { revert E. vm_compute. by intros [= <-]. }
  split; [exact Hk|].
  exact (proj1 (proj1 (proj1 (uid_index_round_trip twin_uid_rts ps E)) _ _ Hk)).
Defined.

(** ** When the construction goes through *)


(** ** Shares and per-unit values as numbers *)

Lemma Qsum_nonneg (l : list Q) :
  Forall (fun x => 0 <= x) l → 0 <= Qsum l ∧ Forall (fun x => x <= Qsum l) l.
Proof.
  induction 1 as [|x l Hx _ [IH0 IH]]; simpl.
  - split; [lra|constructor].
  - split; [lra|]. constructor; [lra|].
    eapply Forall_impl; [exact IH|]. simpl. intros y Hy. lra.
Qed.

(** X8: where no bus has a negative load, every [area_load_share] of a
    returned [PSData] lies between 0 and 1. *)
Theorem area_load_share_is_a_fraction (rtsdata : RTSDataSet.t) (ps : PSData.t) :
  create_ps_data_from_rts_data rtsdata = Ok ps →
  (∀ row, row ∈ RTSDataSet.bus rtsdata → 0 <= RtsBus.mw_load row) →
  ∀ b, b ∈ PSData.busdata ps →
       0 <= Bus.area_load_share b ∧ Bus.area_load_share b <= 1.
Proof.
  intros Hrun Hloads b Hb.
  apply create_ps_data_Ok in Hrun as (_ & Hbus & _).
  set (buses := RTSDataSet.bus rtsdata) in *.
  apply list_elem_of_lookup in Hb as (i & Hi).
  destruct (Forall2_lookup_r _ _ _ _ _ Hbus Hi) as (row & Hrow & Hm).
  apply bus_made_fields in Hm as (t & Hal & Hnz & _ & _ & _ & -> & _).
  assert (row ∈ buses) as Hin by (apply list_elem_of_lookup; eauto).
  destruct (area_load_of_lookup buses (RtsBus.area row)) as [Hsome _].
  destruct Hsome as (t' & Ht' & Hte); [by exists row|].
  assert (t' = t) as -> by congruence.
  destruct (Qsum_nonneg (loads_of (RtsBus.area row) buses)) as [Hs0 Hsle].
  { unfold loads_of. apply Forall_fmap, Forall_forall. intros r Hr. simpl.
    apply list_elem_of_filter in Hr as [_ Hr]. by apply Hloads. }
  assert (RtsBus.mw_load row <= t) as Hle.
  { rewrite Hte. unfold area_total. rewrite Forall_forall in Hsle.
    apply Hsle. unfold loads_of. apply list_elem_of_fmap. exists row.
    split; [done|]. by apply list_elem_of_filter. }
  assert (0 < t) as Hpos.
  { assert (0 <= t) by (rewrite Hte; exact Hs0).
    destruct (Qlt_le_dec 0 t) as [|Hle0]; [done|].
    exfalso. apply Hnz. lra. }
  split.
  - apply Qle_shift_div_l; [done|]. rewrite Qmult_0_l. by apply Hloads.
  - apply Qle_shift_div_r; [done|]. by rewrite Qmult_1_l.
Qed.

Lemma area_load_share_is_a_fraction_witness :
  create_ps_data_from_rts_data example_rts = Ok example_ps ∧
  ∀ b, b ∈ PSData.busdata example_ps →
       0 <= Bus.area_load_share b ∧ Bus.area_load_share b <= 1.
Proof.
  split; [exact example_ps_created|].
  apply (area_load_share_is_a_fraction example_rts example_ps example_ps_created).
  intros row Hrow. simpl in Hrow.
  repeat (apply elem_of_cons in Hrow as [->|Hrow]; [by vm_compute|]).
  by apply not_elem_of_nil in Hrow.
Defined.



(** * More of the cost-curve builder *)



(** The heat-rate increment of segment [s]. *)
Definition hr_incr (g : RtsGen.t) (s : nat) : Q :=
  match s with
  | 1%nat => RtsGen.hr_incr_1 g
  | 2%nat => RtsGen.hr_incr_2 g
  | _ => RtsGen.hr_incr_3 g
  end.








(** ** Convex heat-rate curves *)






Lemma hr_incr_nonneg (g : RtsGen.t) (s : nat) :
  hr_incr_nondecreasing g → 0 <= RtsGen.hr_incr_1 g → 0 <= hr_incr g s.
Proof.
  intros [H12 H23] H1. destruct s as [|[|[|s]]]; simpl; lra.
Qed.









(** * More of the time series *)

Open Scope Z_scope.

Lemma read_rts_timeseries_hourly (df : DataFrame.t) :
  rows_are_dates df → period_max df = Some 24 →
  read_rts_timeseries df
  = Ok (DataFrame.mk (DataFrame.rows df)
          (Some ((fun r => row_date r + (TsRow.Period r - 1) * 3600)
                   <$> DataFrame.rows df))).
Proof.
  intros Hd Hmax. unfold read_rts_timeseries. fold (period_max df).
  rewrite Hmax, bool_decide_eq_true_2 by done.
  by rewrite timestamp_column_dates.
Qed.

Lemma read_rts_timeseries_five_minute (df : DataFrame.t) :
  rows_are_dates df → period_max df = Some 288 →
  read_rts_timeseries df
  = Ok (DataFrame.mk (DataFrame.rows df)
          (Some ((fun r => row_date r + (TsRow.Period r - 1) * 5 * 60)
                   <$> DataFrame.rows df))).
Proof.
  intros Hd Hmax. unfold read_rts_timeseries. fold (period_max df).
  rewrite Hmax, bool_decide_eq_false_2, bool_decide_eq_true_2 by done.
  rewrite timestamp_column_dates by done. simpl. do 3 f_equal.
  apply list_fmap_ext. intros _ r _. lia.
Qed.



Lemma period_of_five_minutes (p q : Z) :
  1 <= p <= 288 → 1 <= q <= 288 →
  (p - 1) * 5 / 60 = (q - 1) * 5 / 60 →
  ((p - 1) * 5) mod 60 = ((q - 1) * 5) mod 60 → p = q.
Proof. intros Hp Hq Hd Hm. Z.div_mod_to_equations. lia. Qed.

(** X15: in a table of calendar dates with periods from 1 on, the timestamps
    that [read_rts_timeseries] adds tell the rows apart: two rows get the
    same timestamp only if they agree in year, month, day and period, for the
    hourly and for the five-minute tables alike. *)
Theorem timestamps_identify_rows (df : DataFrame.t) :
  rows_are_dates df →
  (∀ r, r ∈ DataFrame.rows df → 1 <= TsRow.Period r) →
  period_max df = Some 24 ∨ period_max df = Some 288 →
  ∃ ts,
    read_rts_timeseries df = Ok (DataFrame.mk (DataFrame.rows df) (Some ts)) ∧
    ∀ i j r r' t,
      DataFrame.rows df !! i = Some r → DataFrame.rows df !! j = Some r' →
      ts !! i = Some t → ts !! j = Some t →
      TsRow.Year r = TsRow.Year r' ∧ TsRow.Month r = TsRow.Month r' ∧
      TsRow.Day r = TsRow.Day r' ∧ TsRow.Period r = TsRow.Period r'.
Proof.
  intros Hd Hp1 [Hmax|Hmax].
  - eexists. split; [by apply read_rts_timeseries_hourly|].
    intros i j r r' t Hr Hr' Ht Ht'.
    rewrite list_lookup_fmap, Hr in Ht. rewrite list_lookup_fmap, Hr' in Ht'.
    simpl in Ht, Ht'. injection Ht as Ht. injection Ht' as Ht'.
    assert (r ∈ DataFrame.rows df) as Hin by (apply list_elem_of_lookup; eauto).
    assert (r' ∈ DataFrame.rows df) as Hin' by (apply list_elem_of_lookup; eauto).
    unfold rows_are_dates in Hd. rewrite Forall_forall in Hd.
    destruct (hourly_timestamp_intro r (Hd r Hin)) as [_ Hiso].
    destruct (hourly_timestamp_intro r' (Hd r' Hin')) as [_ Hiso'].
    pose proof (period_max_ge df 24 r Hmax Hin).
    pose proof (period_max_ge df 24 r' Hmax Hin').
    pose proof (Hp1 r Hin). pose proof (Hp1 r' Hin').
    rewrite Ht in Hiso. rewrite Ht' in Hiso'.
    rewrite Hiso in Hiso' by lia. specialize (Hiso' ltac:(lia)).
    injection Hiso' as ? ? ? ?. split_and!; try done. lia.
  - eexists. split; [by apply read_rts_timeseries_five_minute|].
    intros i j r r' t Hr Hr' Ht Ht'.
    rewrite list_lookup_fmap, Hr in Ht. rewrite list_lookup_fmap, Hr' in Ht'.
    simpl in Ht, Ht'. injection Ht as Ht. injection Ht' as Ht'.
    assert (r ∈ DataFrame.rows df) as Hin by (apply list_elem_of_lookup; eauto).
    assert (r' ∈ DataFrame.rows df) as Hin' by (apply list_elem_of_lookup; eauto).
    unfold rows_are_dates in Hd. rewrite Forall_forall in Hd.
    destruct (five_minute_timestamp_intro r (Hd r Hin)) as [_ Hiso].
    destruct (five_minute_timestamp_intro r' (Hd r' Hin')) as [_ Hiso'].
    pose proof (period_max_ge df 288 r Hmax Hin).
    pose proof (period_max_ge df 288 r' Hmax Hin').
    pose proof (Hp1 r Hin). pose proof (Hp1 r' Hin').
    rewrite Ht in Hiso. rewrite Ht' in Hiso'.
    rewrite Hiso in Hiso' by lia. specialize (Hiso' ltac:(lia)).
    injection Hiso' as ? ? ? ? ?. split_and!; try done.
    apply period_of_five_minutes; try done; lia.
Qed.

Lemma timestamps_identify_rows_witness :
  ∃ ts,
    read_rts_timeseries hourly_day
    = Ok (DataFrame.mk (DataFrame.rows hourly_day) (Some ts)) ∧
    ∀ i j r r' t,
      DataFrame.rows hourly_day !! i = Some r →
      DataFrame.rows hourly_day !! j = Some r' →
      ts !! i = Some t → ts !! j = Some t →
      TsRow.Year r = TsRow.Year r' ∧ TsRow.Month r = TsRow.Month r' ∧
      TsRow.Day r = TsRow.Day r' ∧ TsRow.Period r = TsRow.Period r'.
Proof.
  apply (timestamps_identify_rows hourly_day).
  - unfold rows_are_dates. apply Forall_forall. intros r Hr.
    apply list_elem_of_fmap in Hr as (p & -> & _). reflexivity.
  - intros r Hr. apply list_elem_of_fmap in Hr as (p & -> & Hp).
    apply elem_of_seqZ in Hp. simpl. lia.
  - left. reflexivity.
Defined.





Close Scope Z_scope.

(** * Column names: [_read_buses_from_csv], [_read_generators_from_csv],
      [_read_branches_from_csv]

    The three readers rename the columns of the table that [pd.read_csv]
    returns.  A column name is embedded as a [string] of 8-bit characters;
    the embedding follows Python on names of ASCII characters, where
    [str.lower] changes the letters [A-Z] and nothing else. *)

From Stdlib Require Import Ascii.

Definition is_upper (c : ascii) : bool :=
  (65 <=? nat_of_ascii c)%nat && (nat_of_ascii c <=? 90)%nat.

Definition lower_char (c : ascii) : ascii :=
  if is_upper c then ascii_of_nat (nat_of_ascii c + 32) else c.

(** [x.lower()] *)
Fixpoint lower (x : string) : string :=
  match x with
  | EmptyString => EmptyString
  | String c x' => String (lower_char c) (lower x')
  end.

(** [x.replace(old, new)] for an [old] of one character. *)
Fixpoint replace_char (old : ascii) (new : string) (x : string) : string :=
  match x with
  | EmptyString => EmptyString
  | String c x' =>
      if Ascii.eqb c old then String.append new (replace_char old new x')
      else String c (replace_char old new x')
  end.

(** The renaming of [_read_buses_from_csv] and [_read_branches_from_csv]. *)
Definition normalize_column (x : string) : string :=
  replace_char " "%char "_" (lower x).

(** The renaming of [_read_generators_from_csv]. *)
Definition normalize_gen_column (x : string) : string :=
  replace_char "/"%char "_per_"
    (replace_char "$" "dollar" (replace_char " "%char "_" (lower x))).

(** [df.columns = [... for x in df.columns]] *)
Definition read_buses_columns (columns : list string) : list string :=
  normalize_column <$> columns.
Definition read_branches_columns (columns : list string) : list string :=
  normalize_column <$> columns.
Definition read_generators_columns (columns : list string) : list string :=
  normalize_gen_column <$> columns.

(** Every character of [x] satisfies [P]. *)
Fixpoint all_chars (P : ascii → bool) (x : string) : bool :=
  match x with
  | EmptyString => true
  | String c x' => P c && all_chars P x'
  end.

Definition is_ascii_char (c : ascii) : bool := (nat_of_ascii c <? 128)%nat.

(** A character that the bus and branch readers leave in a name. *)
Definition plain_char (c : ascii) : bool :=
  negb (is_upper c) && negb (Ascii.eqb c " "%char).

(** A character that the generator reader leaves in a name. *)
Definition plain_gen_char (c : ascii) : bool :=
  plain_char c && negb (Ascii.eqb c "$"%char) && negb (Ascii.eqb c "/"%char).

(** Headers of the RTS-GMLC tables, and the keys under which the two
    builders read them. *)
Example rts_gen_headers :
  read_generators_columns
    ["GEN UID"; "Bus ID"; "Unit Type"; "Fuel"; "PMax MW"; "PMin MW";
     "Min Down Time Hr"; "Min Up Time Hr"; "Ramp Rate MW/Min";
     "Fuel Price $/MMBTU"; "Output_pct_0"; "HR_avg_0"; "HR_incr_1"]
  = ["gen_uid"; "bus_id"; "unit_type"; "fuel"; "pmax_mw"; "pmin_mw";
     "min_down_time_hr"; "min_up_time_hr"; "ramp_rate_mw_per_min";
     "fuel_price_dollar_per_mmbtu"; "output_pct_0"; "hr_avg_0"; "hr_incr_1"].
Proof. reflexivity. Qed.

Example rts_bus_headers :
  read_buses_columns ["Bus ID"; "Bus Type"; "Area"; "lat"; "lng"; "MW Load"]
  = ["bus_id"; "bus_type"; "area"; "lat"; "lng"; "mw_load"].
Proof. reflexivity. Qed.

Example rts_branch_headers :
  read_branches_columns
    ["UID"; "From Bus"; "To Bus"; "R"; "X"; "B"; "Cont Rating"; "STE Rating"]
  = ["uid"; "from_bus"; "to_bus"; "r"; "x"; "b"; "cont_rating"; "ste_rating"].
Proof. reflexivity. Qed.

Lemma all_chars_append (P : ascii → bool) (x y : string) :
  all_chars P (String.append x y) = all_chars P x && all_chars P y.
Proof.
  induction x as [|c x IH]; simpl; [done|]. by rewrite IH, andb_assoc.
Qed.

Lemma all_chars_impl (P R : ascii → bool) (x : string) :
  (∀ c, P c = true → R c = true) → all_chars P x = true → all_chars R x = true.
Proof.
  intros HPR. induction x as [|c x IH]; simpl; [done|].
  rewrite !andb_true_iff. intros [Hc Hx]. split; [by apply HPR|by apply IH].
Qed.

Lemma lower_char_not_upper (c : ascii) : is_upper (lower_char c) = false.
Proof. by destruct c as [[] [] [] [] [] [] [] []]. Qed.

Lemma lower_all_not_upper (x : string) :
  all_chars (fun c => negb (is_upper c)) (lower x) = true.
Proof.
  induction x as [|c x IH]; simpl; [done|].
  by rewrite lower_char_not_upper, IH.
Qed.

(** Replacing [old] by a text made of [P]-characters, in a name whose other
    characters are [P]-characters. *)
Lemma replace_char_all (P : ascii → bool) (old : ascii) (new x : string) :
  all_chars P new = true →
  all_chars (fun c => P c || Ascii.eqb c old) x = true →
  all_chars P (replace_char old new x) = true.
Proof.
  intros Hnew. induction x as [|c x IH]; simpl; [done|].
  rewrite andb_true_iff. intros [Hc Hx].
  destruct (Ascii.eqb c old) eqn:E.
  - rewrite all_chars_append, Hnew. by apply IH.
  - simpl. rewrite orb_false_r in Hc. rewrite Hc. by apply IH.
Qed.

Lemma replace_char_absent (old : ascii) (new x : string) :
  all_chars (fun c => negb (Ascii.eqb c old)) x = true →
  replace_char old new x = x.
Proof.
  induction x as [|c x IH]; simpl; [done|].
  rewrite andb_true_iff. intros [Hc Hx].
  apply negb_true_iff in Hc. rewrite Hc. by rewrite IH.
Qed.

Lemma lower_plain (x : string) :
  all_chars (fun c => negb (is_upper c)) x = true → lower x = x.
Proof.
  induction x as [|c x IH]; simpl; [done|].
  rewrite andb_true_iff. intros [Hc Hx]. apply negb_true_iff in Hc.
  unfold lower_char. by rewrite Hc, IH.
Qed.

Lemma normalize_column_plain (x : string) :
  all_chars plain_char (normalize_column x) = true.
Proof.
  unfold normalize_column. apply replace_char_all; [done|].
  eapply all_chars_impl; [|apply lower_all_not_upper].
  intros c Hc. unfold plain_char. rewrite Hc. simpl.
  by destruct (Ascii.eqb c " ").
Qed.

Lemma normalize_gen_column_plain (x : string) :
  all_chars plain_gen_char (normalize_gen_column x) = true.
Proof.
  unfold normalize_gen_column.
  apply (replace_char_all plain_gen_char); [done|].
  eapply all_chars_impl;
    [|apply (replace_char_all
               (fun c => plain_char c && negb (Ascii.eqb c "$")));
      [done|]].
  - intros c Hc. unfold plain_gen_char. rewrite Hc. simpl.
    by destruct (Ascii.eqb c "/").
  - eapply all_chars_impl; [|apply normalize_column_plain].
    intros c Hc. rewrite Hc. simpl. by destruct (Ascii.eqb c "$").
Qed.

Lemma plain_fixed (x : string) :
  all_chars plain_char x = true → normalize_column x = x.
Proof.
  intros Hx. unfold normalize_column.
  rewrite lower_plain.
  - apply replace_char_absent. eapply all_chars_impl; [|exact Hx].
    intros c Hc. unfold plain_char in Hc. by apply andb_true_iff in Hc as [_ Hc].
  - eapply all_chars_impl; [|exact Hx].
    intros c Hc. unfold plain_char in Hc. by apply andb_true_iff in Hc as [Hc _].
Qed.

Lemma plain_gen_fixed (x : string) :
  all_chars plain_gen_char x = true → normalize_gen_column x = x.
Proof.
  intros Hx. unfold normalize_gen_column.
  fold (normalize_column x). rewrite plain_fixed.
  - rewrite (replace_char_absent "$").
    + apply replace_char_absent. eapply all_chars_impl; [|exact Hx].
      intros c Hc. unfold plain_gen_char in Hc.
      by apply andb_true_iff in Hc as [_ Hc].
    + eapply all_chars_impl; [|exact Hx].
      intros c Hc. unfold plain_gen_char in Hc.
      apply andb_true_iff in Hc as [Hc _].
      by apply andb_true_iff in Hc as [_ Hc].
  - eapply all_chars_impl; [|exact Hx].
    intros c Hc. unfold plain_gen_char in Hc.
    apply andb_true_iff in Hc as [Hc _].
    by apply andb_true_iff in Hc as [Hc _].
Qed.

(** X17: the readers keep the number and the order of the columns, and no
    renamed column of ASCII characters holds an upper-case letter or a
    space; a renamed generator column holds no ["$"] and no ["/"] either. *)
Theorem renamed_columns_are_plain (columns : list string) :
  Forall (fun x => all_chars is_ascii_char x = true) columns →
  length (read_buses_columns columns) = length columns ∧
  length (read_generators_columns columns) = length columns ∧
  Forall (fun k => all_chars plain_char k = true)
         (read_buses_columns columns) ∧
  Forall (fun k => all_chars plain_char k = true)
         (read_branches_columns columns) ∧
  Forall (fun k => all_chars plain_gen_char k = true)
         (read_generators_columns columns).
Proof.
  intros _. unfold read_buses_columns, read_branches_columns,
    read_generators_columns.
  rewrite !length_fmap. split_and!; try done;
    apply Forall_fmap, Forall_forall; intros x _; simpl.
  - apply normalize_column_plain.
  - apply normalize_column_plain.
  - apply normalize_gen_column_plain.
Qed.

Lemma renamed_columns_are_plain_witness :
  Forall (fun k => all_chars plain_gen_char k = true)
         (read_generators_columns ["Ramp Rate MW/Min"; "Fuel Price $/MMBTU"]).
Proof.
  apply (renamed_columns_are_plain ["Ramp Rate MW/Min"; "Fuel Price $/MMBTU"]).
  repeat constructor.
Defined.

(** X18: renaming is idempotent on column names of ASCII characters: a name
    that a reader has renamed is renamed to itself by the same reader, and a
    name without upper-case letter, space, ["$"] and ["/"] is kept as it is.
    A table whose header already holds the keys is read under those keys. *)
Theorem renaming_is_idempotent (columns : list string) :
  Forall (fun x => all_chars is_ascii_char x = true) columns →
  read_buses_columns (read_buses_columns columns) = read_buses_columns columns ∧
  read_branches_columns (read_branches_columns columns)
  = read_branches_columns columns ∧
  read_generators_columns (read_generators_columns columns)
  = read_generators_columns columns ∧
  (Forall (fun x => all_chars plain_gen_char x = true) columns →
   read_generators_columns columns = columns ∧
   read_buses_columns columns = columns).
Proof.
  intros _. unfold read_buses_columns, read_branches_columns,
    read_generators_columns.
  rewrite <- !list_fmap_compose. split_and!.
  - apply list_fmap_ext. intros _ x _. simpl.
    apply plain_fixed, normalize_column_plain.
  - apply list_fmap_ext. intros _ x _. simpl.
    apply plain_fixed, normalize_column_plain.
  - apply list_fmap_ext. intros _ x _. simpl.
    apply plain_gen_fixed, normalize_gen_column_plain.
  - intros Hplain. split.
    + rewrite <- (list_fmap_id columns) at 2. apply Forall_fmap_ext_1.
      eapply Forall_impl; [exact Hplain|]. intros x Hx. by apply plain_gen_fixed.
    + rewrite <- (list_fmap_id columns) at 2. apply Forall_fmap_ext_1.
      eapply Forall_impl; [exact Hplain|]. intros x Hx. simpl.
      apply plain_fixed. eapply all_chars_impl; [|exact Hx].
      intros c Hc. unfold plain_gen_char in Hc.
      apply andb_true_iff in Hc as [Hc _].
      by apply andb_true_iff in Hc as [Hc _].
Qed.

Lemma renaming_is_idempotent_witness :
  read_generators_columns
    (read_generators_columns ["Ramp Rate MW/Min"; "Fuel Price $/MMBTU"])
  = read_generators_columns ["Ramp Rate MW/Min"; "Fuel Price $/MMBTU"].
Proof.
  apply (renaming_is_idempotent ["Ramp Rate MW/Min"; "Fuel Price $/MMBTU"]).
  repeat constructor.
Defined.

(** * Loading the time series: [RTSDataSet._read_timeseries] *)

(** [os.path.join] on a POSIX system. *)
Definition path_join2 (path b : string) : string :=
  if String.prefix "/" b then b
  else if String.eqb path "" || String.eqb (String.substring (String.length path - 1) 1 path) "/"
       then String.append path b
       else String.append path (String.append "/" b).

Definition path_join (a : string) (parts : list string) : string :=
  fold_left path_join2 parts a.

Example path_join_plain :
  path_join "RTS-GMLC/RTS_Data" ["SourceData"; "bus.csv"]
  = "RTS-GMLC/RTS_Data/SourceData/bus.csv".
Proof. reflexivity. Qed.

Example path_join_trailing_separator :
  path_join "data/" ["SourceData"; "bus.csv"] = "data/SourceData/bus.csv".
Proof. reflexivity. Qed.

(** The dictionary [series_to_read], in the order of its entries. *)
Definition series_to_read (rtsdir : string) : list (string * string) :=
  [("load_da_regional",
    path_join rtsdir ["timeseries_data_files"; "Load"; "DAY_AHEAD_regional_Load.csv"]);
   ("load_rt_regional",
    path_join rtsdir ["timeseries_data_files"; "Load"; "REAL_TIME_regional_Load.csv"]);
   ("pv_da", path_join rtsdir ["timeseries_data_files"; "PV"; "DAY_AHEAD_pv.csv"]);
   ("pv_rt", path_join rtsdir ["timeseries_data_files"; "PV"; "REAL_TIME_pv.csv"]);
   ("wind_da",
    path_join rtsdir ["timeseries_data_files"; "WIND"; "DAY_AHEAD_wind.csv"]);
   ("hydro_da",
    path_join rtsdir ["timeseries_data_files"; "HYDRO"; "DAY_AHEAD_hydro.csv"]);
   ("csp_da",
    path_join rtsdir ["timeseries_data_files"; "CSP"; "DAY_AHEAD_Natural_Inflow.csv"]);
   ("rtpv_da",
    path_join rtsdir ["timeseries_data_files"; "RTPV"; "DAY_AHEAD_rtpv.csv"])].

Section ReadTimeseries.

(** [pd.read_csv], applied to the path of a time-series file: the table of
    the file, or the exception that reading it raises. *)
Variable read_csv : string → result DataFrame.t.

(** [read_rts_timeseries(csv_file)]: the file is read, then timestamped. *)
Definition read_rts_timeseries_file (csv_file : string) : result DataFrame.t :=
  df ←! read_csv csv_file; read_rts_timeseries df.

(** [_read_timeseries]: the dictionary [self.timeseries]. *)
Definition read_timeseries (rtsdir : string) : result (gmap string DataFrame.t) :=
  for_each
    (fun (timeseries : gmap string DataFrame.t) (kf : string * string) =>
       data_df ←! read_rts_timeseries_file kf.2;
       Ok (<[kf.1 := data_df]> timeseries))
    (series_to_read rtsdir) ∅.

(** A loop that files one value per entry of [l] under the entry's key. *)
Lemma load_all_Ok (l : list (string * string)) (m0 m : gmap string DataFrame.t) :
  for_each
    (fun timeseries kf =>
       data_df ←! read_rts_timeseries_file kf.2;
       Ok (<[kf.1 := data_df]> timeseries)) l m0 = Ok m →
  NoDup l.*1 →
  dom m = dom m0 ∪ list_to_set l.*1 ∧
  (∀ k, k ∉ l.*1 → m !! k = m0 !! k) ∧
  (∀ k file, (k, file) ∈ l →
     ∃ df, read_rts_timeseries_file file = Ok df ∧ m !! k = Some df).
Proof.
  revert m0. induction l as [|[k0 f0] l IH]; intros m0 Hrun Hnd.
  - injection Hrun as <-. split_and!; [set_solver|done|].
    intros k file H. by apply not_elem_of_nil in H.
  - simpl in Hrun. inv_bind Hrun. inv_bind E. injection E as <-.
    simpl in Hnd. apply NoDup_cons in Hnd as [Hk0 Hnd].
    destruct (IH _ Hrun Hnd) as (Hdom & Hout & Hin). split_and!.
    + rewrite Hdom, dom_insert_L. simpl. set_solver.
    + intros k Hk. simpl in Hk. apply not_elem_of_cons in Hk as [Hne Hk].
      rewrite Hout by done. by rewrite lookup_insert_ne.
    + intros k file Hkf. apply elem_of_cons in Hkf as [[= -> ->] | Hkf].
      * exists v0. split; [done|]. rewrite Hout by done.
        by rewrite lookup_insert_eq.
      * by apply Hin.
Qed.

Lemma load_all_Raise (l : list (string * string)) (m0 : gmap string DataFrame.t)
    (e : error) :
  for_each
    (fun timeseries kf =>
       data_df ←! read_rts_timeseries_file kf.2;
       Ok (<[kf.1 := data_df]> timeseries)) l m0 = Raise e →
  ∃ l1 kf l2,
    l = l1 ++ kf :: l2 ∧
    read_rts_timeseries_file kf.2 = Raise e ∧
    Forall (fun kf' => ∃ df, read_rts_timeseries_file kf'.2 = Ok df) l1.
Proof.
  revert m0. induction l as [|kf l IH]; intros m0 Hrun; [discriminate|].
  simpl in Hrun.
  destruct (read_rts_timeseries_file kf.2) as [df|e'] eqn:E; simpl in Hrun.
  - destruct (IH _ Hrun) as (l1 & kf' & l2 & -> & He & Hl1).
    exists (kf :: l1), kf', l2. split_and!; try done.
    constructor; [eauto|done].
  - injection Hrun as <-. exists [], kf, l. by split_and!.
Qed.

Lemma load_all_succeeds (l : list (string * string)) (m0 : gmap string DataFrame.t) :
  Forall (fun kf => ∃ df, read_rts_timeseries_file kf.2 = Ok df) l →
  ∃ m, for_each
         (fun timeseries kf =>
            data_df ←! read_rts_timeseries_file kf.2;
            Ok (<[kf.1 := data_df]> timeseries)) l m0 = Ok m.
Proof.
  intros HF. revert m0. induction HF as [|kf l [df Hdf] _ IH]; intros m0; simpl.
  - eauto.
  - rewrite Hdf. simpl. apply IH.
Qed.

Lemma series_keys_NoDup (rtsdir : string) : NoDup (series_to_read rtsdir).*1.
Proof. simpl. apply (bool_decide_unpack _). by vm_compute. Qed.

(** X19: when every one of the eight time-series files can be read and
    timestamped, the loading returns, and [self.timeseries] then has exactly
    the eight series names as keys, each with the timestamped table of its
    own file; when the loading raises, the exception is that of the first
    file, in the order of [series_to_read], that cannot be read or
    timestamped. *)
Theorem read_timeseries_keys_and_first_failure (rtsdir : string) :
  (Forall (fun kf => ∃ df, read_rts_timeseries_file kf.2 = Ok df)
          (series_to_read rtsdir) →
   ∃ timeseries, read_timeseries rtsdir = Ok timeseries) ∧
  (∀ timeseries, read_timeseries rtsdir = Ok timeseries →
     dom timeseries
     = list_to_set ["load_da_regional"; "load_rt_regional"; "pv_da"; "pv_rt";
                    "wind_da"; "hydro_da"; "csp_da"; "rtpv_da"] ∧
     ∀ key file, (key, file) ∈ series_to_read rtsdir →
       ∃ raw df, read_csv file = Ok raw ∧ read_rts_timeseries raw = Ok df ∧
                 timeseries !! key = Some df) ∧
  (∀ e, read_timeseries rtsdir = Raise e →
     ∃ before kf after,
       series_to_read rtsdir = before ++ kf :: after ∧
       read_rts_timeseries_file kf.2 = Raise e ∧
       Forall (fun kf' => ∃ df, read_rts_timeseries_file kf'.2 = Ok df) before).
Proof.
  split_and!.
  - apply load_all_succeeds.
  - intros ts Hrun.
    apply load_all_Ok in Hrun as (Hdom & _ & Hin); [|apply series_keys_NoDup].
    split.
    + rewrite Hdom, dom_empty_L, (left_id_L ∅ (∪)). done.
    + intros key file Hkf. destruct (Hin key file Hkf) as (df & Hdf & Hk).
      unfold read_rts_timeseries_file in Hdf. inv_bind Hdf. eauto.
  - intros e. apply load_all_Raise.
Qed.

End ReadTimeseries.

(** A directory in which every file holds the hourly day, and one that lacks
    the wind file. *)
Definition hourly_files (file : string) : result DataFrame.t := Ok hourly_day.

Definition no_wind_files (file : string) : result DataFrame.t :=
  if String.eqb file "rts/timeseries_data_files/WIND/DAY_AHEAD_wind.csv"
  then Raise ValueError else Ok hourly_day.

Lemma read_timeseries_keys_and_first_failure_witness :
  (∃ timeseries, read_timeseries hourly_files "rts" = Ok timeseries ∧
                 size timeseries = 8%nat) ∧
  read_timeseries no_wind_files "rts" = Raise ValueError.
Proof.
  destruct (read_timeseries_keys_and_first_failure hourly_files "rts")
    as (Hok & Hdom & _).
  destruct Hok as (ts & Hts).
  { apply Forall_forall. intros kf _. by eexists. }
  split.
  - exists ts. split; [done|]. destruct (Hdom ts Hts) as [Hd _].
    rewrite <- size_dom, Hd. by vm_compute.
  - by vm_compute.
Defined.
